(** * Talk2Data web client: the chat session hook, its store and its poller

    A shallow embedding of the client-side session and job-orchestration
    code of the web front end:

    - [types/chat.ts]: the wire and UI message records and the three message
      constructors ([convertApiMessage], [createUserMessage],
      [createErrorMessage]);
    - [contexts/ChatContext.tsx]: [ChatState], [ChatAction], [initialState]
      and [chatReducer];
    - [hooks/useChat.ts]: the two refs of the hook and its operations
      ([clearPolling], [fetchHistory], [selectConversation],
      [createNewConversation], [deleteConversation], [startPolling],
      [sendMessage]);
    - [components/chat/ChatInterface.tsx], [ChatInput.tsx]: the form of the
      chat view and the blank-content guard of [handleSendMessage];
    - [components/layout/Sidebar.tsx]: the calls [Sidebar] makes on its own
      instance of the hook.

    JavaScript runs these operations on one thread; an [async] function runs
    until its next [await] and is resumed when the awaited request settles.
    The embedding makes that explicit: a [World] holds the store, the refs of
    the two mounted instances of the hook, the interval timers of the window
    and the requests in flight, each with the continuation that its
    settlement resumes. An [Event] is one task of the event loop: a call from
    the UI, a firing of an interval timer, or the settlement of a request.

    Two points of React are kept as the code has them. A callback reads the
    [conversations] and [selectedConversationId] of the render it was created
    in: an operation called from the UI sees the store as it is at the call,
    and what runs after an [await], or in the interval callback, still sees
    those values, not the store of that later moment. The two refs belong to
    one mounted instance of the hook: [ChatInterface] and [Sidebar] each
    mount it, share the store through the context, and have refs of their
    own. *)

From stdpp Require Import base strings gmap list numbers pretty.

#[local] Open Scope Z_scope.
#[local] Open Scope string_scope.

(** ** Data model ([types/chat.ts]) *)

Record Conversation := {
  conv_id : Z;
  conv_title : string;
  conv_created_at : string;
  conv_updated_at : string;
}.

(** [ApiMessageType]: a message as the backend returns it. *)
Record ApiMessageType := {
  api_id : Z;
  api_conversation_id : Z;
  api_user_id : option Z;
  api_content : string;
  api_content_type : option string;     (* string | null *)
  api_file_path : option string;        (* string | null *)
  api_timestamp : string;
  api_is_from_user : bool;
}.

(** The [error?: string | null] field of the UI message: the property may
    be missing, hold [null], or hold a text. *)
Inductive ErrorField :=
| ErrorUndefined
| ErrorNull
| ErrorText (text : string).

(** [MessageType]: a message as the UI shows it. *)
Record MessageType := {
  msg_id : string;
  msg_content : string;
  msg_isUser : bool;
  msg_timestamp : string;
  msg_contentType : option string;      (* contentType?: string *)
  msg_filePath : option string;         (* filePath?: string *)
  msg_error : ErrorField;
}.

Record ProgressStatus := {
  isActive : bool;
  progress : Z;
  stage : string;
}.

(** The text an error field shows, if any ([if (error)] in the renderer). *)
Definition error_text (e : ErrorField) : option string :=
  match e with
  | ErrorText t => if String.eqb t "" then None else Some t
  | _ => None
  end.

(** [s || undefined] on a [string | null]: [null] and the empty string are
    falsy and give [undefined]; every other string is kept. *)
Definition or_undefined (s : option string) : option string :=
  match s with
  | Some t => if String.eqb t "" then None else Some t
  | None => None
  end.

(** What [Date] gives the message constructors when a task runs:
    [Date.now()], [new Date().toLocaleTimeString()], and the rendering
    [toLocaleTimeString ts] of [new Date(ts).toLocaleTimeString()], which
    depends on the locale and time zone of the browser and never throws (an
    unparsable [ts] renders as the text of an invalid date). *)
Record Clock := {
  date_now : Z;
  locale_time_now : string;
  toLocaleTimeString : string -> string;
}.

Definition convertApiMessage (clock : Clock) (apiMessage : ApiMessageType)
    : MessageType :=
  {| msg_id := pretty (api_id apiMessage);
     msg_content := api_content apiMessage;
     msg_isUser := api_is_from_user apiMessage;
     msg_timestamp := toLocaleTimeString clock (api_timestamp apiMessage);
     msg_contentType := or_undefined (api_content_type apiMessage);
     msg_filePath := or_undefined (api_file_path apiMessage);
     msg_error := ErrorNull |}.

Definition createUserMessage (content : string) (clock : Clock) : MessageType :=
  {| msg_id := pretty (date_now clock);
     msg_content := content;
     msg_isUser := true;
     msg_timestamp := locale_time_now clock;
     msg_contentType := None;
     msg_filePath := None;
     msg_error := ErrorUndefined |}.

Definition createErrorMessage (errorText : string) (clock : Clock) : MessageType :=
  {| msg_id := pretty (date_now clock + 1);
     msg_content := "发生错误";
     msg_isUser := false;
     msg_timestamp := locale_time_now clock;
     msg_contentType := Some "error";
     msg_filePath := None;
     msg_error := ErrorText errorText |}.

(** ** The store ([contexts/ChatContext.tsx]) *)

Record ChatState := {
  conversations : list Conversation;
  selectedConversationId : option Z;
  messages : list MessageType;
  isLoadingHistory : bool;
  isLoadingMessages : bool;
  isSendingMessage : bool;
  currentJobId : option string;
  currentJobProgress : ProgressStatus;
  error : option string;
}.

Inductive ChatAction :=
| SET_CONVERSATIONS (payload : list Conversation)
| SELECT_CONVERSATION (payload : option Z)
| SET_MESSAGES (payload : list MessageType)
| ADD_MESSAGE (payload : MessageType)
| SET_LOADING_HISTORY (payload : bool)
| SET_LOADING_MESSAGES (payload : bool)
| SET_SENDING_MESSAGE (payload : bool)
| SET_CURRENT_JOB_ID (payload : option string)
| SET_CURRENT_JOB_PROGRESS (payload : ProgressStatus)
| SET_ERROR (payload : option string)
| CLEAR_ERROR.

Definition inactiveProgress : ProgressStatus :=
  {| isActive := false; progress := 0; stage := "" |}.

Definition initialState : ChatState :=
  {| conversations := [];
     selectedConversationId := None;
     messages := [];
     isLoadingHistory := false;
     isLoadingMessages := false;
     isSendingMessage := false;
     currentJobId := None;
     currentJobProgress := inactiveProgress;
     error := None |}.

(** [{ ...state, field: payload }]: a copy of the state with one field
    replaced. *)
Definition set_conversations (state : ChatState) (payload : list Conversation) : ChatState :=
  {| conversations := payload;
     selectedConversationId := selectedConversationId state;
     messages := messages state;
     isLoadingHistory := isLoadingHistory state;
     isLoadingMessages := isLoadingMessages state;
     isSendingMessage := isSendingMessage state;
     currentJobId := currentJobId state;
     currentJobProgress := currentJobProgress state;
     error := error state |}.

Definition set_selectedConversationId (state : ChatState) (payload : option Z) : ChatState :=
  {| conversations := conversations state;
     selectedConversationId := payload;
     messages := messages state;
     isLoadingHistory := isLoadingHistory state;
     isLoadingMessages := isLoadingMessages state;
     isSendingMessage := isSendingMessage state;
     currentJobId := currentJobId state;
     currentJobProgress := currentJobProgress state;
     error := error state |}.

Definition set_messages (state : ChatState) (payload : list MessageType) : ChatState :=
  {| conversations := conversations state;
     selectedConversationId := selectedConversationId state;
     messages := payload;
     isLoadingHistory := isLoadingHistory state;
     isLoadingMessages := isLoadingMessages state;
     isSendingMessage := isSendingMessage state;
     currentJobId := currentJobId state;
     currentJobProgress := currentJobProgress state;
     error := error state |}.

Definition set_isLoadingHistory (state : ChatState) (payload : bool) : ChatState :=
  {| conversations := conversations state;
     selectedConversationId := selectedConversationId state;
     messages := messages state;
     isLoadingHistory := payload;
     isLoadingMessages := isLoadingMessages state;
     isSendingMessage := isSendingMessage state;
     currentJobId := currentJobId state;
     currentJobProgress := currentJobProgress state;
     error := error state |}.

Definition set_isLoadingMessages (state : ChatState) (payload : bool) : ChatState :=
  {| conversations := conversations state;
     selectedConversationId := selectedConversationId state;
     messages := messages state;
     isLoadingHistory := isLoadingHistory state;
     isLoadingMessages := payload;
     isSendingMessage := isSendingMessage state;
     currentJobId := currentJobId state;
     currentJobProgress := currentJobProgress state;
     error := error state |}.

Definition set_isSendingMessage (state : ChatState) (payload : bool) : ChatState :=
  {| conversations := conversations state;
     selectedConversationId := selectedConversationId state;
     messages := messages state;
     isLoadingHistory := isLoadingHistory state;
     isLoadingMessages := isLoadingMessages state;
     isSendingMessage := payload;
     currentJobId := currentJobId state;
     currentJobProgress := currentJobProgress state;
     error := error state |}.

Definition set_currentJobId (state : ChatState) (payload : option string) : ChatState :=
  {| conversations := conversations state;
     selectedConversationId := selectedConversationId state;
     messages := messages state;
     isLoadingHistory := isLoadingHistory state;
     isLoadingMessages := isLoadingMessages state;
     isSendingMessage := isSendingMessage state;
     currentJobId := payload;
     currentJobProgress := currentJobProgress state;
     error := error state |}.

Definition set_currentJobProgress (state : ChatState) (payload : ProgressStatus) : ChatState :=
  {| conversations := conversations state;
     selectedConversationId := selectedConversationId state;
     messages := messages state;
     isLoadingHistory := isLoadingHistory state;
     isLoadingMessages := isLoadingMessages state;
     isSendingMessage := isSendingMessage state;
     currentJobId := currentJobId state;
     currentJobProgress := payload;
     error := error state |}.

Definition set_error (state : ChatState) (payload : option string) : ChatState :=
  {| conversations := conversations state;
     selectedConversationId := selectedConversationId state;
     messages := messages state;
     isLoadingHistory := isLoadingHistory state;
     isLoadingMessages := isLoadingMessages state;
     isSendingMessage := isSendingMessage state;
     currentJobId := currentJobId state;
     currentJobProgress := currentJobProgress state;
     error := payload |}.

Definition chatReducer (state : ChatState) (action : ChatAction) : ChatState :=
  match action with
  | SET_CONVERSATIONS payload => set_conversations state payload
  | SELECT_CONVERSATION payload => set_selectedConversationId state payload
  | SET_MESSAGES payload => set_messages state payload
  | ADD_MESSAGE payload => set_messages state (messages state ++ [payload])
  | SET_LOADING_HISTORY payload => set_isLoadingHistory state payload
  | SET_LOADING_MESSAGES payload => set_isLoadingMessages state payload
  | SET_SENDING_MESSAGE payload => set_isSendingMessage state payload
  | SET_CURRENT_JOB_ID payload => set_currentJobId state payload
  | SET_CURRENT_JOB_PROGRESS payload => set_currentJobProgress state payload
  | SET_ERROR payload => set_error state payload
  | CLEAR_ERROR => set_error state None
  end.

(** ** The world of the mounted hooks ([hooks/useChat.ts]) *)

(** What the callback handed to [window.setInterval] closes over: the
    [jobId] argument of [startPolling], and the [selectedConversationId]
    of the render in which [startPolling] was created. *)
Record PollClosure := {
  poll_jobId : string;
  poll_selectedConversationId : option Z;
}.

(** Who awaits an operation of the hook: the UI (nothing follows), or the
    interval callback at one of its two inner [await]s. *)
Inductive Caller :=
| TopLevel
| PollAfterSelect (conversationIdToLoad : Z)
| PollAfterHistory.

(** A request in flight, with what the code after its [await] closes over. *)
Inductive Continuation :=
| AwaitChatHistory (caller : Caller)
| AwaitConversationMessages (id : Z) (caller : Caller)
| AwaitDeleteConversation (id : Z) (currentConversations : list Conversation)
    (selected : option Z)
| AwaitSendQuery (query : string) (selected : option Z)
| AwaitJobStatus (closure : PollClosure).

Record QueryResponse := {
  job_id : string;
  conversation_id : Z;
}.

Record StatusResponse := {
  status : string;
  status_progress : Z;
  status_stage : string;
}.

(** How a request settles; [None] is a rejected promise. *)
Inductive Settlement :=
| ChatHistorySettled (result : option (list Conversation))
| ConversationMessagesSettled (result : option (list ApiMessageType))
| DeleteConversationSettled (result : option unit)
| SendQuerySettled (result : option QueryResponse)
| JobStatusSettled (result : option StatusResponse).

(** The two refs of one mounted instance of the hook. *)
Record Refs := {
  ref_pollingInterval : option nat;
  ref_newConversationId : option Z;
}.

(** The hook is mounted twice ([Layout] renders [Sidebar] and
    [ChatInterface], and each calls [useChat()]). The store, the timers of
    the window and the requests are shared; each instance has refs of its
    own. [pollingIntervalRef] and [newConversationIdRef] are the refs of the
    instance an operation runs on; as the world stands between two tasks
    that is the instance of [ChatInterface], whose [sendMessage] starts the
    poll, and [sidebarRefs] holds the refs of the instance of [Sidebar]. *)
Record World := {
  store : ChatState;
  pollingIntervalRef : option nat;
  newConversationIdRef : option Z;
  timers : gmap nat PollClosure;        (* the live interval timers *)
  nextTimer : nat;                      (* the id [setInterval] returns next *)
  pending : gmap nat Continuation;      (* the requests in flight *)
  nextRequest : nat;
  sidebarRefs : Refs;
}.

Definition initialWorld : World :=
  {| store := initialState;
     pollingIntervalRef := None;
     newConversationIdRef := None;
     timers := ∅;
     nextTimer := 0;
     pending := ∅;
     nextRequest := 0;
     sidebarRefs := {| ref_pollingInterval := None; ref_newConversationId := None |} |}.

Definition dispatch (action : ChatAction) (w : World) : World :=
  {| store := chatReducer (store w) action;
     pollingIntervalRef := pollingIntervalRef w;
     newConversationIdRef := newConversationIdRef w;
     timers := timers w;
     nextTimer := nextTimer w;
     pending := pending w;
     nextRequest := nextRequest w;
     sidebarRefs := sidebarRefs w |}.

Definition set_newConversationIdRef (v : option Z) (w : World) : World :=
  {| store := store w;
     pollingIntervalRef := pollingIntervalRef w;
     newConversationIdRef := v;
     timers := timers w;
     nextTimer := nextTimer w;
     pending := pending w;
     nextRequest := nextRequest w;
     sidebarRefs := sidebarRefs w |}.

(** Issue a request and suspend on it. *)
Definition await (k : Continuation) (w : World) : World :=
  {| store := store w;
     pollingIntervalRef := pollingIntervalRef w;
     newConversationIdRef := newConversationIdRef w;
     timers := timers w;
     nextTimer := nextTimer w;
     pending := <[nextRequest w := k]> (pending w);
     nextRequest := S (nextRequest w);
     sidebarRefs := sidebarRefs w |}.

(** A request has settled: it is no longer in flight. *)
Definition settled (r : nat) (w : World) : World :=
  {| store := store w;
     pollingIntervalRef := pollingIntervalRef w;
     newConversationIdRef := newConversationIdRef w;
     timers := timers w;
     nextTimer := nextTimer w;
     pending := delete r (pending w);
     nextRequest := nextRequest w;
     sidebarRefs := sidebarRefs w |}.

(** [window.clearInterval(t)]. *)
Definition clearInterval (t : nat) (w : World) : World :=
  {| store := store w;
     pollingIntervalRef := pollingIntervalRef w;
     newConversationIdRef := newConversationIdRef w;
     timers := delete t (timers w);
     nextTimer := nextTimer w;
     pending := pending w;
     nextRequest := nextRequest w;
     sidebarRefs := sidebarRefs w |}.

Definition set_pollingIntervalRef (v : option nat) (w : World) : World :=
  {| store := store w;
     pollingIntervalRef := v;
     newConversationIdRef := newConversationIdRef w;
     timers := timers w;
     nextTimer := nextTimer w;
     pending := pending w;
     nextRequest := nextRequest w;
     sidebarRefs := sidebarRefs w |}.

(** [window.setInterval(callback, 1000)]: a new live timer under a fresh id;
    the id is returned with the world. *)
Definition setInterval (callback : PollClosure) (w : World) : nat * World :=
  (nextTimer w,
   {| store := store w;
      pollingIntervalRef := pollingIntervalRef w;
      newConversationIdRef := newConversationIdRef w;
      timers := <[nextTimer w := callback]> (timers w);
      nextTimer := S (nextTimer w);
      pending := pending w;
      nextRequest := nextRequest w;
      sidebarRefs := sidebarRefs w |}).

Definition clearPolling (w : World) : World :=
  match pollingIntervalRef w with
  | Some t => set_pollingIntervalRef None (clearInterval t w)
  | None => w
  end.

Definition resetProgress (w : World) : World :=
  dispatch (SET_CURRENT_JOB_PROGRESS inactiveProgress) w.

(** [fetchHistory], up to its [await]. *)
Definition fetchHistory (caller : Caller) (w : World) : World :=
  let w := dispatch (SET_LOADING_HISTORY true) w in
  let w := dispatch (SET_ERROR None) w in
  await (AwaitChatHistory caller) w.

(** What the interval callback does once the operation it awaited returns
    (lines 191-208 of the hook). *)
Definition resume (caller : Caller) (w : World) : World :=
  match caller with
  | TopLevel => w
  | PollAfterSelect conversationIdToLoad =>
      if decide (newConversationIdRef w = Some conversationIdToLoad) then
        let w := set_newConversationIdRef None w in
        fetchHistory PollAfterHistory w
      else resetProgress w
  | PollAfterHistory => resetProgress w
  end.

(** [fetchHistory], from the settlement of [getChatHistory] on. *)
Definition fetchHistory_settled (caller : Caller)
    (result : option (list Conversation)) (w : World) : World :=
  let w :=
    match result with
    | Some conversationsData => dispatch (SET_CONVERSATIONS conversationsData) w
    | None => dispatch (SET_ERROR (Some "获取对话历史失败，请稍后再试")) w
    end in
  let w := dispatch (SET_LOADING_HISTORY false) w in
  resume caller w.

(** [selectConversation], up to its [await] (or to its [return] for
    [null]). *)
Definition selectConversation (id : option Z) (caller : Caller) (w : World) : World :=
  let w := dispatch (SELECT_CONVERSATION id) w in
  match id with
  | None =>
      let w := dispatch (SET_MESSAGES []) w in
      resume caller w
  | Some id =>
      let w := dispatch (SET_LOADING_MESSAGES true) w in
      let w := dispatch (SET_ERROR None) w in
      await (AwaitConversationMessages id caller) w
  end.

(** [createNewConversation]; the ref [clearPolling] looks at is the one of
    the instance the operation runs on. Its only caller is [Sidebar], on its
    own instance (see [step]). *)
Definition createNewConversation (w : World) : World :=
  let w := clearPolling w in
  let w := dispatch (SELECT_CONVERSATION None) w in
  let w := dispatch (SET_MESSAGES []) w in
  dispatch (SET_ERROR None) w.

(** [conversations.filter(conv => conv.id !== id)]. *)
Definition without (id : Z) (cs : list Conversation) : list Conversation :=
  List.filter (fun conv => bool_decide (conv_id conv ≠ id)) cs.

(** [deleteConversation], up to its [await]; [conversations] and
    [selectedConversationId] are those of the render the callback comes
    from. *)
Definition deleteConversation (id : Z) (w : World) : World :=
  let currentConversations := conversations (store w) in
  let selected := selectedConversationId (store w) in
  let w := dispatch (SET_ERROR None) w in
  let w := dispatch (SET_CONVERSATIONS (without id currentConversations)) w in
  await (AwaitDeleteConversation id currentConversations selected) w.

Definition deleteConversation_settled (id : Z)
    (currentConversations : list Conversation) (selected : option Z)
    (result : option unit) (w : World) : World :=
  match result with
  | Some _ =>
      if decide (selected = Some id) then
        let w := dispatch (SELECT_CONVERSATION None) w in
        dispatch (SET_MESSAGES []) w
      else w
  | None =>
      let w := dispatch (SET_ERROR (Some "删除对话失败，请稍后再试")) w in
      dispatch (SET_CONVERSATIONS currentConversations) w
  end.

Definition startPolling (jobId : string) (selected : option Z) (w : World) : World :=
  let w := clearPolling w in
  let '(interval, w) :=
    setInterval {| poll_jobId := jobId;
                   poll_selectedConversationId := selected |} w in
  set_pollingIntervalRef (Some interval) w.

(** [sendMessage], up to its [await]. *)
Definition sendMessage (content : string) (clock : Clock) (w : World) : World :=
  let selected := selectedConversationId (store w) in
  let w := set_newConversationIdRef None w in
  let w := dispatch (SET_SENDING_MESSAGE true) w in
  let w := dispatch (SET_ERROR None) w in
  let userMessage := createUserMessage content clock in
  let w := dispatch (ADD_MESSAGE userMessage) w in
  await (AwaitSendQuery content selected) w.

Definition sendMessage_settled (selected : option Z)
    (result : option QueryResponse) (clock : Clock) (w : World) : World :=
  match result with
  | Some response =>
      let jobId := job_id response in
      let w :=
        match selected with
        | None => set_newConversationIdRef (Some (conversation_id response)) w
        | Some _ => w
        end in
      let w := dispatch (SET_CURRENT_JOB_ID (Some jobId)) w in
      startPolling jobId selected w
  | None =>
      let w := dispatch (SET_SENDING_MESSAGE false) w in
      let errorMsg := "发送消息失败，请稍后再试" in
      let w := dispatch (SET_ERROR (Some errorMsg)) w in
      let errorMessage := createErrorMessage errorMsg clock in
      dispatch (ADD_MESSAGE errorMessage) w
  end.

Definition isTerminal (s : string) : bool :=
  String.eqb s "completed" || String.eqb s "failed" || String.eqb s "error".

(** [a ?? b]. *)
Definition nullish {A} (a b : option A) : option A :=
  match a with
  | Some x => Some x
  | None => b
  end.

Definition pollErrorMsg : string := "轮询状态失败，请刷新页面再试".

(** The interval callback, from the settlement of [getJobStatus] on. *)
Definition pollTick_settled (closure : PollClosure)
    (result : option StatusResponse) (w : World) : World :=
  match result with
  | Some statusResponse =>
      let w := dispatch (SET_CURRENT_JOB_PROGRESS
                 {| isActive := true;
                    progress := status_progress statusResponse;
                    stage := status_stage statusResponse |}) w in
      if isTerminal (status statusResponse) then
        let w := clearPolling w in
        let w := dispatch (SET_SENDING_MESSAGE false) w in
        let conversationIdToLoad :=
          nullish (newConversationIdRef w) (poll_selectedConversationId closure) in
        match conversationIdToLoad with
        | Some id => selectConversation (Some id) (PollAfterSelect id) w
        | None => resetProgress w
        end
      else w
  | None =>
      let w := clearPolling w in
      let w := dispatch (SET_SENDING_MESSAGE false) w in
      let w := dispatch (SET_ERROR (Some pollErrorMsg)) w in
      resetProgress w
  end.

(** [selectConversation], from the settlement of
    [getConversationMessages] on. *)
Definition selectConversation_settled (caller : Caller)
    (result : option (list ApiMessageType)) (clock : Clock) (w : World)
    : World :=
  let w :=
    match result with
    | Some messagesData =>
        let formattedMessages :=
          map (convertApiMessage clock) messagesData in
        dispatch (SET_MESSAGES formattedMessages) w
    | None => dispatch (SET_ERROR (Some "获取对话消息失败，请稍后再试")) w
    end in
  let w := dispatch (SET_LOADING_MESSAGES false) w in
  resume caller w.

(** The world with the refs of the two instances exchanged. *)
Definition exchangeRefs (w : World) : World :=
  {| store := store w;
     pollingIntervalRef := ref_pollingInterval (sidebarRefs w);
     newConversationIdRef := ref_newConversationId (sidebarRefs w);
     timers := timers w;
     nextTimer := nextTimer w;
     pending := pending w;
     nextRequest := nextRequest w;
     sidebarRefs := {| ref_pollingInterval := pollingIntervalRef w;
                       ref_newConversationId := newConversationIdRef w |} |}.

(** An operation as [Sidebar] calls it: on the refs of its own instance of
    the hook. *)
Definition inSidebar (operation : World -> World) (w : World) : World :=
  exchangeRefs (operation (exchangeRefs w)).

(** One task of the event loop. [Sidebar] calls [fetchHistory] (when it
    mounts), [selectConversation], [createNewConversation] and
    [deleteConversation]; [ChatInterface] calls [sendMessage] and
    [clearError]; a timer that fires runs the callback of the instance that
    started it, the one of [ChatInterface]. Of the operations [Sidebar]
    calls only [createNewConversation] touches a ref (through
    [clearPolling]); the other three run the same on either instance
    (lemma [inSidebar_without_refs]) and are written without the
    exchange. *)
Inductive Event :=
| FetchHistory
| SelectConversation (id : option Z)
| CreateNewConversation
| DeleteConversation (id : Z)
| SendMessage (content : string) (clock : Clock)
| ClearError
| IntervalFires (t : nat)
| Settles (r : nat) (s : Settlement) (clock : Clock).

(** The continuation [k] of a request resumed with the settlement [s];
    [None] when [s] is not a settlement of that kind of request. *)
Definition resumeWith (k : Continuation) (s : Settlement) (clock : Clock)
    (w : World) : option World :=
  match k, s with
  | AwaitChatHistory caller, ChatHistorySettled result =>
      Some (fetchHistory_settled caller result w)
  | AwaitConversationMessages _ caller, ConversationMessagesSettled result =>
      Some (selectConversation_settled caller result clock w)
  | AwaitDeleteConversation id current selected, DeleteConversationSettled result =>
      Some (deleteConversation_settled id current selected result w)
  | AwaitSendQuery _ selected, SendQuerySettled result =>
      Some (sendMessage_settled selected result clock w)
  | AwaitJobStatus closure, JobStatusSettled result =>
      Some (pollTick_settled closure result w)
  | _, _ => None
  end.

(** [step e w] is the world after the task [e], or [None] when [e] cannot
    happen in [w]: only a live timer fires, only a request in flight
    settles. *)
Definition step (e : Event) (w : World) : option World :=
  match e with
  | FetchHistory => Some (fetchHistory TopLevel w)
  | SelectConversation id => Some (selectConversation id TopLevel w)
  | CreateNewConversation => Some (inSidebar createNewConversation w)
  | DeleteConversation id => Some (deleteConversation id w)
  | SendMessage content clock => Some (sendMessage content clock w)
  | ClearError => Some (dispatch CLEAR_ERROR w)
  | IntervalFires t =>
      match timers w !! t with
      | Some closure => Some (await (AwaitJobStatus closure) w)
      | None => None
      end
  | Settles r s clock =>
      match pending w !! r with
      | Some k => resumeWith k s clock (settled r w)
      | None => None
      end
  end.

Fixpoint run (es : list Event) (w : World) : option World :=
  match es with
  | [] => Some w
  | e :: es =>
      match step e w with
      | Some w => run es w
      | None => None
      end
  end.

(** The worlds the hook can be in: those some sequence of tasks leads to
    from the world at mount. *)
Definition reachable (w : World) : Prop :=
  exists es, run es initialWorld = Some w.


(** ** Strings

    A string holds the bytes of the UTF-8 encoding of the JavaScript string
    it stands for. In that encoding no character starts inside another, so
    a string starts or ends with a character exactly when its bytes start or
    end with the bytes of the character. *)

(** [s.startsWith(p)]. *)
Fixpoint startsWith (s p : string) {struct p} : bool :=
  match p, s with
  | EmptyString, _ => true
  | String b p', String a s' => Ascii.eqb a b && startsWith s' p'
  | String _ _, EmptyString => false
  end.

(** [s.slice(n)] and [s.substring(n)] for a count [n] within the string. *)
Fixpoint sliceFrom (n : nat) (s : string) : string :=
  match n, s with
  | O, _ => s
  | S n', String _ s' => sliceFrom n' s'
  | S _, EmptyString => EmptyString
  end.

(** The white space [String.prototype.trim] strips, the code points of
    WhiteSpace and LineTerminator of ECMAScript, each as the bytes of its
    encoding. *)
Definition whiteSpace : list string :=
  map (fun bytes => String.string_of_list_ascii (map Ascii.ascii_of_nat bytes))
    [ [9]; [10]; [11]; [12]; [13];          (* TAB, LF, VT, FF, CR *)
      [32];                                 (* SPACE *)
      [194; 160];                           (* U+00A0 no-break space *)
      [225; 154; 128];                      (* U+1680 *)
      [226; 128; 128]; [226; 128; 129];     (* U+2000, U+2001 *)
      [226; 128; 130]; [226; 128; 131];     (* U+2002, U+2003 *)
      [226; 128; 132]; [226; 128; 133];     (* U+2004, U+2005 *)
      [226; 128; 134]; [226; 128; 135];     (* U+2006, U+2007 *)
      [226; 128; 136]; [226; 128; 137];     (* U+2008, U+2009 *)
      [226; 128; 138];                      (* U+200A *)
      [226; 128; 168]; [226; 128; 169];     (* U+2028, U+2029 *)
      [226; 128; 175];                      (* U+202F *)
      [226; 129; 159];                      (* U+205F *)
      [227; 128; 128];                      (* U+3000 ideographic space *)
      [239; 187; 191] ]%nat.                (* U+FEFF *)

(** The white space character [s] starts with, if any. *)
Definition leadingWhiteSpace (s : string) : option string :=
  List.find (startsWith s) whiteSpace.

(** [trimStart]: white space characters are dropped from the start as long
    as there is one; [fuel] bounds their number. *)
Fixpoint trimStartWithin (fuel : nat) (s : string) : string :=
  match fuel with
  | O => s
  | S fuel =>
      match leadingWhiteSpace s with
      | Some c => trimStartWithin fuel (sliceFrom (String.length c) s)
      | None => s
      end
  end.

Definition trimStart (s : string) : string :=
  trimStartWithin (String.length s) s.

(** [s] is white space from start to end. *)
Definition allWhiteSpace (s : string) : bool := String.eqb (trimStart s) "".

(** [trimEnd]: the string is cut where what follows is white space to the
    end. *)
Fixpoint trimEnd (s : string) : string :=
  match s with
  | String a s' => if allWhiteSpace s then EmptyString else String a (trimEnd s')
  | EmptyString => EmptyString
  end.

Definition trim (s : string) : string := trimEnd (trimStart s).

(** ** The guard of the chat view ([components/chat/ChatInterface.tsx]) *)

(** The content is blank: [content.trim() === '']. *)
Definition blank (content : string) : bool := String.eqb (trim content) "".

(** [handleSendMessage], as far as it touches the hook: nothing for blank
    content, [sendMessage] otherwise. *)
Definition handleSendMessage (content : string) (clock : Clock) (w : World) : World :=
  if blank content then w else sendMessage content clock w.

(** ** Predicates on worlds *)

(** The part of the world the poller owns: the ref and the live timers. *)
Definition poller (w : World) : option nat * gmap nat PollClosure :=
  (pollingIntervalRef w, timers w).

(** Every live timer is the one [pollingIntervalRef] holds. *)
Definition timer_owned (w : World) : Prop :=
  forall t, is_Some (timers w !! t) -> pollingIntervalRef w = Some t.

Definition no_timer (w : World) : Prop :=
  timers w = ∅ /\ pollingIntervalRef w = None.

Definition is_query (k : Continuation) : bool :=
  match k with
  | AwaitSendQuery _ _ => true
  | _ => false
  end.

(** Request [r] is a submission ([sendQuery]) still awaiting its response. *)
Definition query_pending (w : World) (r : nat) : Prop :=
  exists k, pending w !! r = Some k /\ is_query k = true.

(** No submission is awaiting its response. *)
Definition no_query (w : World) : Prop :=
  map_Forall (fun _ k => is_query k = false) (pending w).

(** [w'] comes from [w] by code that issues no submission and writes the
    anchor, if at all, with [null]. *)
Definition quiet (w w' : World) : Prop :=
  (forall r, query_pending w' r -> query_pending w r)
  /\ (newConversationIdRef w' = newConversationIdRef w
      \/ newConversationIdRef w' = None).

(** At most one submission awaits its response, and while one does the
    anchor is [null]. *)
Definition one_submission (w : World) : Prop :=
  forall r, query_pending w r ->
    newConversationIdRef w = None /\ forall r', query_pending w r' -> r' = r.

Definition is_send (e : Event) : bool :=
  match e with
  | SendMessage _ _ => true
  | _ => false
  end.

(** Run a sequence of tasks in which [sendMessage] is called only while no
    earlier submission awaits its response. (The chat view disables its
    input while [isSendingMessage] is set.) *)
Fixpoint run_serial (es : list Event) (w : World) : option World :=
  match es with
  | [] => Some w
  | e :: es =>
      if is_send e && negb (bool_decide (no_query w)) then None
      else match step e w with
           | Some w => run_serial es w
           | None => None
           end
  end.

(** What the anchor is once a submission made with [selected] has been
    answered with [response]. *)
Definition anchor_after (selected : option Z) (response : QueryResponse)
    : option Z :=
  match selected with
  | None => Some (conversation_id response)
  | Some _ => None
  end.

(** ** Further code of the chat

    The rest of the chat code around the hook: the form of the chat view
    ([components/chat/ChatInput.tsx], [ChatInterface.tsx]), the renderer of a
    message ([Message.tsx], [ContentDisplay.tsx], [ProgressBar.tsx]), the
    path handling of the viewers ([ImageViewer.tsx], [DataTable.tsx]) and the
    URL helper of [lib/api.ts]. *)

(** [s.endsWith(p)]: [s] is [p], or what follows its first character ends
    with [p]. *)
Fixpoint endsWith (s p : string) : bool :=
  String.eqb s p ||
  match s with
  | String _ s' => endsWith s' p
  | EmptyString => false
  end.

(** [s.slice(0, -1)]. *)
Fixpoint dropLast (s : string) : string :=
  match s with
  | String a (String _ _ as s') => String a (dropLast s')
  | _ => EmptyString
  end.

(** [getFileContentUrl]; [baseURL] is [api.defaults.baseURL], [None] when it
    is not a string. *)
Definition getFileContentUrl (baseURL : option string) (filePath : string)
    : string :=
  let baseURL := default "" baseURL in
  let cleanedBaseURL := if endsWith baseURL "/" then dropLast baseURL else baseURL in
  let cleanedFilePath :=
    if startsWith filePath "/" then sliceFrom 1 filePath else filePath in
  cleanedBaseURL +:+ "/file/" +:+ cleanedFilePath.

(** [path.replace(/^\.\.\/|^\.\//g, '')]: both alternatives are anchored at
    the start of the string, so at most one match is replaced. *)
Definition stripDotPrefix (path : string) : string :=
  if startsWith path "../" then sliceFrom 3 path
  else if startsWith path "./" then sliceFrom 2 path
  else path.

(** [processPath] of [ContentDisplay]. *)
Definition processPath (path : string) : string :=
  if String.eqb path "" then "" else stripDotPrefix path.

(** [processPath] of [ImageViewer] and of [DataTable] (the same code). *)
Definition viewerPath (path : string) : string :=
  let processedPath := stripDotPrefix path in
  if startsWith processedPath "output/" then processedPath
  else if startsWith processedPath "/output/" then sliceFrom 1 processedPath
  else "output/" +:+ processedPath.

(** The endpoint a viewer requests: [`/file/${processPath(path)}`]. *)
Definition viewerEndpoint (path : string) : string :=
  "/file/" +:+ viewerPath path.

(** [toLowerCase], on the letters A to Z. (Of the characters outside the
    one-byte range only the Kelvin sign and the dotted capital I have a lower
    case that contains an ASCII letter, a [k] and an [i] followed by a
    combining dot; neither can complete one of the extensions tested
    below.) *)
Definition lowerAscii (a : Ascii.ascii) : Ascii.ascii :=
  let n := Ascii.nat_of_ascii a in
  if ((65 <=? n)%nat && (n <=? 90)%nat) then Ascii.ascii_of_nat (n + 32) else a.

Fixpoint toLowerCase (s : string) : string :=
  match s with
  | String a s' => String (lowerAscii a) (toLowerCase s')
  | EmptyString => EmptyString
  end.

(** The character [/]. *)
Definition slash : Ascii.ascii := Ascii.ascii_of_nat 47.

(** What follows the last slash of [s], if [s] has a slash. *)
Fixpoint afterLastSlash (s : string) : option string :=
  match s with
  | String a s' =>
      match afterLastSlash s' with
      | Some t => Some t
      | None => if Ascii.eqb a slash then Some s' else None
      end
  | EmptyString => None
  end.

(** [s.split('/').pop()]. *)
Definition lastSegment (s : string) : string := default s (afterLastSlash s).

(** What a message shows in its body. *)
Inductive View :=
| PlainText (content : string)          (* the text of a user message *)
| ErrorPanel (text : string)
| Markdown (content : string)
| DataTableView (filePath : string)
| ImageView (imagePath : string)
| MissingTablePath                      (* no path for a table *)
| MissingImagePath                      (* no path for a plot *)
| DownloadLink (filePath name : string)
| NoContent.

(** [path.toLowerCase().match(/\.(png|jpg|jpeg|gif|svg)$/)]. *)
Definition hasImageExtension (path : string) : bool :=
  let lower := toLowerCase path in
  existsb (endsWith lower) [".png"; ".jpg"; ".jpeg"; ".gif"; ".svg"].

(** [ContentDisplay]: which component renders the content. *)
Definition contentDisplay (content : string) (contentType filePath : option string)
    (error : ErrorField) : View :=
  match error_text error with
  | Some text => ErrorPanel text
  | None =>
      let processedFilePath :=
        match filePath with
        | Some path => processPath path     (* the empty path is falsy *)
        | None => ""
        end in
      let byDefault :=
        if negb (String.eqb content "") then Markdown content
        else if negb (String.eqb processedFilePath "") then
          if hasImageExtension processedFilePath then ImageView processedFilePath
          else if endsWith (toLowerCase processedFilePath) ".csv"
          then DataTableView processedFilePath
          else DownloadLink processedFilePath (lastSegment processedFilePath)
        else NoContent in
      match contentType with
      | Some type =>
          if String.eqb type "text" then
            Markdown (if String.eqb content "" then "内容为空" else content)
          else if String.eqb type "dataframe_csv_path" then
            if String.eqb processedFilePath "" then MissingTablePath
            else DataTableView processedFilePath
          else if String.eqb type "plot_file_path" then
            if String.eqb processedFilePath "" then MissingImagePath
            else ImageView processedFilePath
          else byDefault
      | None => byDefault
      end
  end.

(** The body of [Message]: a user message shows its text as it is, any other
    message goes through [ContentDisplay]. *)
Definition messageBody (m : MessageType) : View :=
  if msg_isUser m then PlainText (msg_content m)
  else contentDisplay (msg_content m) (msg_contentType m) (msg_filePath m)
         (msg_error m).

(** [ProgressBar]: [Math.min(Math.max(0, progress), 100)]. *)
Definition normalizedProgress (progress : Z) : Z := Z.min (Z.max 0 progress) 100.

(** [handleSubmit] of [ChatInput]: the content handed to [onSendMessage], if
    any. *)
Definition handleSubmit (value : string) (disabled : bool) : option string :=
  if negb (String.eqb (trim value) "") && negb disabled then Some (trim value)
  else None.

(** Submitting the form of the chat view: [ChatInterface] disables the input
    while a message is being sent or the mock progress runs, and hands
    [handleSendMessage] to [ChatInput]. *)
Definition submitForm (value : string) (mockActive : bool) (clock : Clock)
    (w : World) : World :=
  match handleSubmit value (isSendingMessage (store w) || mockActive) with
  | Some content => handleSendMessage content clock w
  | None => w
  end.

(** ** Further notions on the store and on runs *)

(** The task is one the mounted application can take in [w]. [sendMessage]
    is called only by the form of the chat view: with the sending flag down,
    and with content the form hands over as it is (trimmed, not blank).
    [Sidebar] offers the conversations of the list for selection and for
    deletion. *)
Definition offered (e : Event) (w : World) : bool :=
  match e with
  | SendMessage content _ =>
      bool_decide (handleSubmit content (isSendingMessage (store w)) = Some content)
  | SelectConversation (Some id) | DeleteConversation id =>
      bool_decide (id ∈ map conv_id (conversations (store w)))
  | SelectConversation None => false
  | _ => true
  end.

(** Run a sequence of tasks, each one the application can take. *)
Fixpoint run_app (es : list Event) (w : World) : option World :=
  match es with
  | [] => Some w
  | e :: es =>
      if offered e w then
        match step e w with
        | Some w => run_app es w
        | None => None
        end
      else None
  end.

(** Dispatch a list of actions, first to last. *)
Definition reduce (state : ChatState) (actions : list ChatAction) : ChatState :=
  fold_left chatReducer actions state.

Definition replaces_messages (a : ChatAction) : bool :=
  match a with
  | SET_MESSAGES _ => true
  | _ => false
  end.

(** The messages a list of actions adds, in order. *)
Definition added (actions : list ChatAction) : list MessageType :=
  omap (fun a => match a with ADD_MESSAGE m => Some m | _ => None end) actions.

(** One round of polling per report: the timer fires and the status request
    settles with the report. *)
Fixpoint poll_rounds (t r : nat) (reports : list StatusResponse) (clock : Clock)
    : list Event :=
  match reports with
  | [] => []
  | statusResponse :: reports =>
      IntervalFires t
      :: Settles r (JobStatusSettled (Some statusResponse)) clock
      :: poll_rounds t (S r) reports clock
  end.

Definition progressOf (statusResponse : StatusResponse) : ProgressStatus :=
  {| isActive := true;
     progress := status_progress statusResponse;
     stage := status_stage statusResponse |}.

(** The rejection of the request a continuation awaits. *)
Definition rejection (k : Continuation) : Settlement :=
  match k with
  | AwaitChatHistory _ => ChatHistorySettled None
  | AwaitConversationMessages _ _ => ConversationMessagesSettled None
  | AwaitDeleteConversation _ _ _ => DeleteConversationSettled None
  | AwaitSendQuery _ _ => SendQuerySettled None
  | AwaitJobStatus _ => JobStatusSettled None
  end.

(** The continuation was issued by an operation the UI called, not by the
    interval callback inside its handling of a terminal status. *)
Definition from_ui (k : Continuation) : bool :=
  match k with
  | AwaitChatHistory TopLevel | AwaitConversationMessages _ TopLevel => true
  | AwaitChatHistory _ | AwaitConversationMessages _ _ => false
  | _ => true
  end.

(** The requests behind the two loading flags. *)
Definition awaits_messages (k : Continuation) : bool :=
  match k with
  | AwaitConversationMessages _ _ => true
  | _ => false
  end.

(** [fetchHistory] is called by the UI and by the interval callback once the
    messages of a finished job have arrived, nowhere else. *)
Definition awaits_history (k : Continuation) : bool :=
  match k with
  | AwaitChatHistory TopLevel | AwaitChatHistory PollAfterHistory => true
  | _ => false
  end.

(** A request of the given kind is in flight. *)
Definition in_flight (kind : Continuation -> bool) (w : World) : Prop :=
  exists r k, pending w !! r = Some k /\ kind k = true.

(** The ids of the requests in flight are below the next id. *)
Definition requests_fresh (w : World) : Prop :=
  forall r k, pending w !! r = Some k -> (r < nextRequest w)%nat.

(** Were the flags [loadingMessages] and [loadingHistory], each flag that is
    set would have a request of its kind in flight. *)
Definition backs (loadingMessages loadingHistory : bool) (w : World) : Prop :=
  requests_fresh w
  /\ (loadingMessages = true -> in_flight awaits_messages w)
  /\ (loadingHistory = true -> in_flight awaits_history w).

(** Each loading flag that is set has a request of its kind in flight. *)
Definition spinners_backed (w : World) : Prop :=
  backs (isLoadingMessages (store w)) (isLoadingHistory (store w)) w.

(** Were the sending flag [sending], it would have something to clear it: a
    submission in flight, or a live poll timer. *)
Definition carried (sending : bool) (w : World) : Prop :=
  requests_fresh w
  /\ ref_pollingInterval (sidebarRefs w) = None
  /\ (sending = true -> in_flight is_query w \/ timers w <> ∅).

(** The sending flag, when set, has something to clear it. *)
Definition sending_carried (w : World) : Prop :=
  carried (isSendingMessage (store w)) w.

(** ** Scenarios

    Concrete runs of the hook, from the world at mount. The locale renders a
    timestamp as it is written. *)

Definition noon : Clock :=
  {| date_now := 1700000000000;
     locale_time_now := "12:00:00";
     toLocaleTimeString := fun ts => ts |}.

Definition conversation (id : Z) (title : string) : Conversation :=
  {| conv_id := id; conv_title := title;
     conv_created_at := "2024-01-01T09:00:00";
     conv_updated_at := "2024-01-01T09:30:00" |}.

Definition wireMessage (id conversationId : Z) (content : string)
    (contentType : option string) : ApiMessageType :=
  {| api_id := id; api_conversation_id := conversationId;
     api_user_id := Some 1; api_content := content;
     api_content_type := contentType; api_file_path := None;
     api_timestamp := "2024-01-01T09:00:00"; api_is_from_user := true |}.

Definition answered (jobId : string) (conversationId : Z) : Settlement :=
  SendQuerySettled (Some {| job_id := jobId; conversation_id := conversationId |}).

Definition reported (st : string) (pct : Z) : StatusResponse :=
  {| status := st; status_progress := pct; status_stage := "analysis" |}.

(** Scenario A of the specification, up to the third tick in flight. *)
Definition draftPolling : list Event :=
  [ SendMessage "revenue 2023" noon;
    Settles 0 (answered "j1" 42) noon;
    IntervalFires 0;
    Settles 1 (JobStatusSettled (Some (reported "running" 30))) noon;
    IntervalFires 0;
    Settles 2 (JobStatusSettled (Some (reported "running" 60))) noon;
    IntervalFires 0 ].

(** A history of two conversations, the first of them selected. *)
Definition selectedSeven : list Event :=
  [ FetchHistory;
    Settles 0 (ChatHistorySettled
                 (Some [conversation 7 "margins"; conversation 8 "cash flow"])) noon;
    SelectConversation (Some 7);
    Settles 1 (ConversationMessagesSettled
                 (Some [wireMessage 70 7 "gross margin by quarter" (Some "text")]))
      noon ].

(** Scenario A of the specification, up to the start of the poll. *)
Definition jobPolling : list Event :=
  [ SendMessage "revenue 2023" noon;
    Settles 0 (answered "j1" 42) noon ].

(** The user presses the button for a new conversation while the job is
    polled. *)
Definition newDraftWhilePollingStarts : list Event :=
  jobPolling ++ [ CreateNewConversation ].

(** The user presses the button for a new conversation while the job is
    polled; the next tick reports completion. *)
Definition newDraftWhilePolling : list Event :=
  jobPolling
  ++ [ CreateNewConversation;
       IntervalFires 0;
       Settles 1 (JobStatusSettled (Some (reported "completed" 100))) noon ].

(** The history is loaded when [Sidebar] mounts; a question is sent from the
    draft state. The server answers a status request more slowly than the
    timer fires: two ticks are in flight when the first is answered with a
    terminal status, which cancels the timer. The user then opens
    conversation 7. *)
Definition staleTick : list Event :=
  [ FetchHistory;
    Settles 0 (ChatHistorySettled
                 (Some [conversation 7 "margins"; conversation 8 "cash flow"])) noon;
    SendMessage "revenue 2023" noon;
    Settles 1 (answered "j1" 42) noon;
    IntervalFires 0;
    IntervalFires 0;
    Settles 2 (JobStatusSettled (Some (reported "completed" 100))) noon;
    SelectConversation (Some 7) ].

(** Three questions. The job of the first is polled with two ticks in
    flight; the first tick is answered with a terminal status and the job is
    followed to its end. The user opens a new draft and sends the second
    question; while it awaits its answer the second tick of the first job is
    answered, which clears the sending flag. The user opens conversation 42
    and sends the third question, the form being enabled. The second
    question is answered, then the third. *)
Definition staleTickOverlap : list Event :=
  [ FetchHistory;
    Settles 0 (ChatHistorySettled (Some [])) noon;
    SendMessage "revenue 2023" noon;
    Settles 1 (answered "j1" 42) noon;
    IntervalFires 0;
    IntervalFires 0;
    Settles 2 (JobStatusSettled (Some (reported "completed" 100))) noon;
    Settles 4 (ConversationMessagesSettled
                 (Some [wireMessage 420 42 "revenue 2023" (Some "text")])) noon;
    Settles 5 (ChatHistorySettled (Some [conversation 42 "revenue 2023"])) noon;
    CreateNewConversation;
    SendMessage "net margin" noon;
    Settles 3 (JobStatusSettled (Some (reported "completed" 100))) noon;
    SelectConversation (Some 42);
    Settles 7 (ConversationMessagesSettled
                 (Some [wireMessage 420 42 "revenue 2023" (Some "text")])) noon;
    SendMessage "cash flow" noon;
    Settles 6 (answered "j2" 43) noon;
    Settles 8 (answered "j3" 42) noon ].


(** A question sent from conversation 5; the user then opens conversation 9
    while the job is polled, and a tick is in flight. *)
Definition movedSelection : list Event :=
  [ SelectConversation (Some 5);
    Settles 0 (ConversationMessagesSettled (Some [])) noon;
    SendMessage "net margin" noon;
    Settles 1 (answered "j1" 5) noon;
    SelectConversation (Some 9);
    Settles 2 (ConversationMessagesSettled
                 (Some [wireMessage 90 9 "inventory turnover" (Some "text")])) noon;
    IntervalFires 0 ].

(** Two questions from the draft state, the second sent once the first has
    been answered. *)
Definition secondDraftQuestion : list Event :=
  jobPolling ++ [ SendMessage "net margin" noon ].

(** Scenario A with its terminal tick handled: the fetch of the messages of
    conversation 42 is in flight. *)
Definition draftLoading : list Event :=
  draftPolling
  ++ [ Settles 3 (JobStatusSettled (Some (reported "completed" 100))) noon ].

Definition after (es : list Event) : World :=
  default initialWorld (run es initialWorld).

(** * Properties *)

(** Concrete goals are settled by evaluation. *)
Ltac by_computation := vm_compute; reflexivity.

(** ** White space *)

Lemma startsWith_prefix s c : startsWith s c = true <-> exists r, s = c +:+ r.
Proof.
  revert s. induction c as [|b c IH]; intros s; simpl.
  - split; [by exists s|done].
  - destruct s as [|a s]; [split; [done|by intros [r Hr]]|].
    rewrite andb_true_iff, IH. split.
    + intros [Hab%Ascii.eqb_eq [r ->]]. exists r. by rewrite Hab.
    + intros [r [= -> ->]]. split; [apply Ascii.eqb_refl|by exists r].
Qed.

Lemma append_cons b c r : String b c +:+ r = String b (c +:+ r).
Proof. reflexivity. Qed.

Lemma sliceFrom_append c r : sliceFrom (String.length c) (c +:+ r) = r.
Proof. induction c as [|b c IH]; [reflexivity|exact IH]. Qed.

Lemma length_append c r :
  String.length (c +:+ r) = (String.length c + String.length r)%nat.
Proof.
  induction c as [|b c IH]; [reflexivity|].
  rewrite append_cons. simpl. by rewrite IH.
Qed.

Lemma append_assoc c r w : (c +:+ r) +:+ w = c +:+ (r +:+ w).
Proof.
  induction c as [|b c IH]; [reflexivity|]. by rewrite !append_cons, IH.
Qed.

(** Of two strings that start the same string, one starts the other. *)
Lemma prefixes_comparable c c' r r' :
  c +:+ r = c' +:+ r' -> startsWith c c' = true \/ startsWith c' c = true.
Proof.
  revert c'. induction c as [|b c IH]; intros c' H; [by right|].
  destruct c' as [|b' c']; [by left|]. injection H as -> H.
  simpl. rewrite Ascii.eqb_refl. simpl. by apply IH.
Qed.

(** No white space character is empty, and none starts another. *)
Lemma whiteSpace_nonempty c : In c whiteSpace -> (0 < String.length c)%nat.
Proof.
  intros Hc.
  assert (H : forallb (fun c => (0 <? String.length c)%nat) whiteSpace = true)
    by by_computation.
  rewrite forallb_forall in H. by apply Nat.ltb_lt, H.
Qed.

Lemma whiteSpace_prefix_free c c' :
  In c whiteSpace -> In c' whiteSpace -> startsWith c c' = true -> c = c'.
Proof.
  intros Hc Hc' Hstarts.
  assert (H : forallb (fun c => forallb (fun c' =>
                 implb (startsWith c c') (String.eqb c c')) whiteSpace)
                whiteSpace = true) by by_computation.
  rewrite forallb_forall in H. specialize (H c Hc).
  rewrite forallb_forall in H. specialize (H c' Hc').
  rewrite Hstarts in H. by apply String.eqb_eq.
Qed.

Lemma leadingWhiteSpace_Some s c :
  leadingWhiteSpace s = Some c <-> In c whiteSpace /\ startsWith s c = true.
Proof.
  unfold leadingWhiteSpace. split; [apply find_some|].
  intros [Hc Hstarts].
  destruct (List.find (startsWith s) whiteSpace) as [c'|] eqn:Hfind.
  - apply find_some in Hfind as [Hc' Hstarts']. f_equal.
    apply startsWith_prefix in Hstarts as [r Hr].
    apply startsWith_prefix in Hstarts' as [r' Hr'].
    rewrite Hr in Hr'.
    destruct (prefixes_comparable c c' r r' Hr') as [H|H].
    + symmetry. by apply whiteSpace_prefix_free.
    + by apply whiteSpace_prefix_free.
  - pose proof (find_none _ _ Hfind c Hc) as Hnone. congruence.
Qed.

Lemma leadingWhiteSpace_append c r :
  In c whiteSpace -> leadingWhiteSpace (c +:+ r) = Some c.
Proof.
  intros Hc. apply leadingWhiteSpace_Some. split; [exact Hc|].
  apply startsWith_prefix. by exists r.
Qed.

Lemma leadingWhiteSpace_split s c :
  leadingWhiteSpace s = Some c ->
  In c whiteSpace /\ s = c +:+ sliceFrom (String.length c) s.
Proof.
  intros [Hc [r ->]%startsWith_prefix]%leadingWhiteSpace_Some.
  by rewrite sliceFrom_append.
Qed.

(** The bound on the white space characters in [trimStart] is never
    reached. *)
Lemma trimStartWithin_enough n m s :
  (String.length s <= n)%nat -> (String.length s <= m)%nat ->
  trimStartWithin n s = trimStartWithin m s.
Proof.
  revert m s. induction n as [|n IH]; intros m s Hn Hm.
  - destruct s; [|simpl in Hn; lia]. by destruct m.
  - destruct m as [|m].
    + destruct s; [reflexivity|simpl in Hm; lia].
    + simpl. destruct (leadingWhiteSpace s) as [c|] eqn:Hc; [|reflexivity].
      apply leadingWhiteSpace_split in Hc as [Hc Hs].
      pose proof (whiteSpace_nonempty c Hc) as Hpos.
      rewrite Hs, length_append in Hn, Hm. apply IH; lia.
Qed.

Lemma trimStart_unfold s :
  trimStart s
  = match leadingWhiteSpace s with
    | Some c => trimStart (sliceFrom (String.length c) s)
    | None => s
    end.
Proof.
  unfold trimStart. destruct s as [|a s]; [reflexivity|].
  cbn [String.length trimStartWithin].
  destruct (leadingWhiteSpace (String a s)) as [c|] eqn:Hc; [|reflexivity].
  apply leadingWhiteSpace_split in Hc as [Hc Hs].
  pose proof (whiteSpace_nonempty c Hc) as Hpos.
  assert (Hlen : (String.length (sliceFrom (String.length c) (String a s))
                  <= String.length s)%nat).
  { apply (f_equal String.length) in Hs. rewrite length_append in Hs.
    simpl in Hs. lia. }
  by apply trimStartWithin_enough.
Qed.

Lemma trimStart_append c r : In c whiteSpace -> trimStart (c +:+ r) = trimStart r.
Proof.
  intros Hc. rewrite trimStart_unfold, leadingWhiteSpace_append by done.
  by rewrite sliceFrom_append.
Qed.

Lemma trimStart_fixed s : leadingWhiteSpace s = None -> trimStart s = s.
Proof. intros H. by rewrite trimStart_unfold, H. Qed.

(** A string starts with no white space character, or with one followed by
    a shorter string. *)
Lemma trimStart_ind (P : string -> Prop) :
  (forall s, leadingWhiteSpace s = None -> P s) ->
  (forall c r, In c whiteSpace -> P r -> P (c +:+ r)) ->
  forall s, P s.
Proof.
  intros Hnone Hsome s.
  assert (H : forall n s, (String.length s < n)%nat -> P s);
    [|apply (H (S (String.length s))); lia].
  clear s. induction n as [|n IH]; intros s Hs; [lia|].
  destruct (leadingWhiteSpace s) as [c|] eqn:Hc; [|by apply Hnone].
  apply leadingWhiteSpace_split in Hc as [Hc Hsplit].
  pose proof (whiteSpace_nonempty c Hc) as Hpos.
  rewrite Hsplit. apply Hsome; [exact Hc|]. apply IH.
  rewrite Hsplit, length_append in Hs. lia.
Qed.

Lemma trimStart_trimmed s : leadingWhiteSpace (trimStart s) = None.
Proof.
  induction s as [s Hs|c r Hc IH] using trimStart_ind.
  - by rewrite trimStart_fixed.
  - by rewrite trimStart_append.
Qed.

(** White space before white space is white space. *)
Lemma trimStart_white x w : trimStart x = "" -> trimStart (x +:+ w) = trimStart w.
Proof.
  induction x as [x Hx|c r Hc IH] using trimStart_ind.
  - rewrite trimStart_fixed by done. by intros ->.
  - rewrite trimStart_append by done. intros Hr.
    rewrite append_assoc, trimStart_append by done. by apply IH.
Qed.

(** What [trimEnd] cuts is white space. *)
Lemma trimEnd_cut s : exists w, s = trimEnd s +:+ w /\ trimStart w = "".
Proof.
  induction s as [|a s (w & Hs & Hw)]; [by exists ""|].
  cbn [trimEnd]. destruct (allWhiteSpace (String a s)) eqn:Hall.
  - exists (String a s). split; [reflexivity|]. by apply String.eqb_eq.
  - exists w. split; [|exact Hw]. by rewrite append_cons, <- Hs.
Qed.

Lemma trimEnd_idempotent s : trimEnd (trimEnd s) = trimEnd s.
Proof.
  induction s as [|a s IH]; [reflexivity|].
  cbn [trimEnd]. destruct (allWhiteSpace (String a s)) eqn:Hall; [reflexivity|].
  cbn [trimEnd]. destruct (allWhiteSpace (String a (trimEnd s))) eqn:Hcut.
  - destruct (trimEnd_cut s) as (w & Hs & Hw).
    apply String.eqb_eq in Hcut. apply String.eqb_neq in Hall.
    destruct Hall. rewrite Hs.
    rewrite <- append_cons. by rewrite trimStart_white.
  - by rewrite IH.
Qed.

(** Cutting the end uncovers no white space at the start. *)
Lemma trimEnd_trimmed t :
  leadingWhiteSpace t = None -> leadingWhiteSpace (trimEnd t) = None.
Proof.
  intros Ht. destruct (trimEnd_cut t) as (w & Hcut & _).
  destruct (leadingWhiteSpace (trimEnd t)) as [c|] eqn:Hc; [|reflexivity].
  apply leadingWhiteSpace_split in Hc as [Hc Hsplit].
  rewrite Hcut, Hsplit, append_assoc, leadingWhiteSpace_append in Ht by done.
  discriminate.
Qed.

Lemma trim_idempotent s : trim (trim s) = trim s.
Proof.
  unfold trim.
  rewrite (trimStart_fixed (trimEnd (trimStart s)))
    by apply trimEnd_trimmed, trimStart_trimmed.
  apply trimEnd_idempotent.
Qed.

(** ** The poll timer *)

Lemma poller_timer_owned w w' :
  poller w' = poller w -> timer_owned w -> timer_owned w'.
Proof.
  unfold poller, timer_owned. intros [= Href Htim] H t.
  rewrite Href, Htim. apply H.
Qed.

Lemma no_timer_owned w : no_timer w -> timer_owned w.
Proof.
  intros [Hempty _] t [c Hc]. rewrite Hempty, lookup_empty in Hc. discriminate.
Qed.

Lemma poller_no_timer w w' :
  poller w' = poller w -> no_timer w -> no_timer w'.
Proof.
  unfold poller, no_timer. intros [= Href Htim]. rewrite Href, Htim. done.
Qed.

Lemma timer_owned_size w : timer_owned w -> (size (timers w) <= 1)%nat.
Proof.
  intros H. destruct (pollingIntervalRef w) as [t|] eqn:Href.
  - assert (Hdel : delete t (timers w) = ∅).
    { apply map_empty. intros k. destruct (decide (k = t)) as [->|Hne].
      - apply lookup_delete_eq.
      - rewrite lookup_delete_ne by congruence.
        destruct (timers w !! k) eqn:Hk; [|done].
        assert (pollingIntervalRef w = Some k) by (apply H; eauto). congruence. }
    destruct (timers w !! t) as [c|] eqn:Ht.
    + rewrite <- (insert_delete_id (timers w) t c Ht), Hdel.
      rewrite insert_empty, map_size_singleton. lia.
    + rewrite delete_id in Hdel by done. rewrite Hdel, map_size_empty. lia.
  - assert (Hempty : timers w = ∅).
    { apply map_empty. intros k. destruct (timers w !! k) eqn:Hk; [|done].
      assert (pollingIntervalRef w = Some k) by (apply H; eauto). congruence. }
    rewrite Hempty, map_size_empty. lia.
Qed.

(** Frame lemmas: the operations that do not touch the poller. *)
Lemma dispatch_poller a w : poller (dispatch a w) = poller w.
Proof. reflexivity. Qed.

Lemma fetchHistory_poller c w : poller (fetchHistory c w) = poller w.
Proof. reflexivity. Qed.

Lemma resume_poller c w : poller (resume c w) = poller w.
Proof. destruct c; simpl; try case_decide; reflexivity. Qed.

Lemma fetchHistory_settled_poller c r w :
  poller (fetchHistory_settled c r w) = poller w.
Proof. unfold fetchHistory_settled. rewrite resume_poller. by destruct r. Qed.

Lemma selectConversation_poller id c w :
  poller (selectConversation id c w) = poller w.
Proof.
  unfold selectConversation. destruct id; [reflexivity|].
  by rewrite resume_poller.
Qed.

Lemma deleteConversation_settled_poller id cur sel r w :
  poller (deleteConversation_settled id cur sel r w) = poller w.
Proof.
  unfold deleteConversation_settled. destruct r; [|reflexivity].
  by case_decide.
Qed.

Lemma clearPolling_no_timer w : timer_owned w -> no_timer (clearPolling w).
Proof.
  intros H. unfold clearPolling, no_timer.
  destruct (pollingIntervalRef w) as [t|] eqn:Href; simpl.
  - split; [|done]. apply map_empty. intros k.
    destruct (decide (k = t)) as [->|Hne].
    + apply lookup_delete_eq.
    + rewrite lookup_delete_ne by congruence.
      destruct (timers w !! k) eqn:Hk; [|done].
      assert (pollingIntervalRef w = Some k) by (apply H; eauto). congruence.
  - split; [|done]. apply map_empty. intros k.
    destruct (timers w !! k) eqn:Hk; [|done].
    assert (pollingIntervalRef w = Some k) by (apply H; eauto). congruence.
Qed.

Lemma startPolling_timers jobId selected w :
  timer_owned w ->
  timers (startPolling jobId selected w)
  = {[ nextTimer w := {| poll_jobId := jobId;
                         poll_selectedConversationId := selected |} ]}
  /\ pollingIntervalRef (startPolling jobId selected w) = Some (nextTimer w).
Proof.
  intros H. destruct (clearPolling_no_timer w H) as [Hempty _].
  unfold startPolling, setInterval. simpl. rewrite Hempty.
  assert (Hnext : nextTimer (clearPolling w) = nextTimer w).
  { unfold clearPolling. by destruct (pollingIntervalRef w). }
  rewrite Hnext. done.
Qed.

Lemma startPolling_timer_owned jobId selected w :
  timer_owned w -> timer_owned (startPolling jobId selected w).
Proof.
  intros H t [c Hc]. destruct (startPolling_timers jobId selected w H) as [Ht Hr].
  rewrite Ht in Hc. rewrite Hr.
  apply lookup_singleton_Some in Hc as [-> _]. done.
Qed.

Lemma sendMessage_settled_timer_owned sel r clock w :
  timer_owned w -> timer_owned (sendMessage_settled sel r clock w).
Proof.
  intros H. unfold sendMessage_settled. destruct r as [response|].
  - apply startPolling_timer_owned.
    eapply poller_timer_owned; [|exact H]. by destruct sel.
  - eapply poller_timer_owned; [|exact H]. reflexivity.
Qed.

Lemma pollTick_settled_timer_owned closure r w :
  timer_owned w -> timer_owned (pollTick_settled closure r w).
Proof.
  intros H. unfold pollTick_settled. destruct r as [statusResponse|].
  - destruct (isTerminal _); [|by eapply poller_timer_owned; [|exact H]].
    apply no_timer_owned.
    match goal with
    | |- no_timer (match ?o with _ => _ end) => destruct o
    end.
    + eapply poller_no_timer; [apply selectConversation_poller|].
      eapply poller_no_timer; [apply dispatch_poller|].
      apply clearPolling_no_timer. by eapply poller_timer_owned; [|exact H].
    + eapply poller_no_timer; [apply dispatch_poller|].
      eapply poller_no_timer; [apply dispatch_poller|].
      apply clearPolling_no_timer. by eapply poller_timer_owned; [|exact H].
  - apply no_timer_owned.
    eapply poller_no_timer; [reflexivity|].
    apply clearPolling_no_timer, H.
Qed.

(** [createNewConversation] as [Sidebar] calls it, field by field: the ref
    it clears is the one of [Sidebar]'s instance. *)
Lemma createNewConversation_inSidebar w :
  let w' := inSidebar createNewConversation w in
  store w'
  = set_error (set_messages (set_selectedConversationId (store w) None) []) None
  /\ pollingIntervalRef w' = pollingIntervalRef w
  /\ newConversationIdRef w' = newConversationIdRef w
  /\ timers w'
     = match ref_pollingInterval (sidebarRefs w) with
       | Some t => delete t (timers w)
       | None => timers w
       end
  /\ nextTimer w' = nextTimer w
  /\ pending w' = pending w
  /\ nextRequest w' = nextRequest w
  /\ ref_pollingInterval (sidebarRefs w') = None.
Proof.
  unfold inSidebar, createNewConversation, clearPolling. cbn.
  destruct (ref_pollingInterval (sidebarRefs w)) eqn:Href; repeat split; done.
Qed.

(** The operations that touch no ref run the same on either instance. *)
Lemma inSidebar_without_refs id w :
  inSidebar (fetchHistory TopLevel) w = fetchHistory TopLevel w
  /\ inSidebar (selectConversation id TopLevel) w = selectConversation id TopLevel w
  /\ forall conversationId,
       inSidebar (deleteConversation conversationId) w
       = deleteConversation conversationId w.
Proof.
  destruct w as [? ? ? ? ? ? ? []]. split; [reflexivity|].
  split; [by destruct id|reflexivity].
Qed.

Lemma createNewConversation_timer_owned w :
  timer_owned w -> timer_owned (inSidebar createNewConversation w).
Proof.
  intros H t Ht.
  destruct (createNewConversation_inSidebar w) as (_ & -> & _ & Htimers & _).
  apply H. rewrite Htimers in Ht.
  destruct (ref_pollingInterval (sidebarRefs w)); [|exact Ht].
  destruct Ht as [c Hc]. apply lookup_delete_Some in Hc as [_ Hc]. eauto.
Qed.


Lemma selectConversation_settled_poller c r clock w :
  poller (selectConversation_settled c r clock w) = poller w.
Proof.
  unfold selectConversation_settled. rewrite resume_poller. by destruct r.
Qed.

Lemma step_timer_owned e w w' :
  timer_owned w -> step e w = Some w' -> timer_owned w'.
Proof.
  intros H Hstep. destruct e; simpl in Hstep.
  - injection Hstep as <-. by eapply poller_timer_owned; [|exact H].
  - injection Hstep as <-.
    eapply poller_timer_owned; [apply selectConversation_poller|exact H].
  - injection Hstep as <-. by apply createNewConversation_timer_owned.
  - injection Hstep as <-. by eapply poller_timer_owned; [|exact H].
  - injection Hstep as <-. by eapply poller_timer_owned; [|exact H].
  - injection Hstep as <-. by eapply poller_timer_owned; [|exact H].
  - destruct (timers w !! t); [|discriminate]. injection Hstep as <-.
    by eapply poller_timer_owned; [|exact H].
  - destruct (pending w !! r) as [k|]; [|discriminate].
    assert (H' : timer_owned (settled r w))
      by (by eapply poller_timer_owned; [|exact H]).
    revert H' Hstep. generalize (settled r w). intros v Hv Hstep.
    destruct k, s; simpl in Hstep; try discriminate; injection Hstep as <-.
    + eapply poller_timer_owned; [apply fetchHistory_settled_poller|exact Hv].
    + eapply poller_timer_owned; [apply selectConversation_settled_poller|exact Hv].
    + eapply poller_timer_owned; [apply deleteConversation_settled_poller|exact Hv].
    + by apply sendMessage_settled_timer_owned.
    + by apply pollTick_settled_timer_owned.
Qed.

Lemma run_timer_owned es w w' :
  timer_owned w -> run es w = Some w' -> timer_owned w'.
Proof.
  revert w. induction es as [|e es IH]; intros w H Hrun; simpl in Hrun.
  - by injection Hrun as <-.
  - destruct (step e w) as [v|] eqn:Hstep; [|discriminate].
    eapply IH; [|exact Hrun]. by eapply step_timer_owned.
Qed.

Lemma reachable_timer_owned w : reachable w -> timer_owned w.
Proof.
  intros [es Hrun]. eapply run_timer_owned; [|exact Hrun].
  intros t [c Hc]. simpl in Hc. rewrite lookup_empty in Hc. discriminate.
Qed.

(** The refs of [Sidebar]'s instance: no operation but
    [createNewConversation] touches them, and that one only clears. *)
Lemma clearPolling_sidebarRefs w : sidebarRefs (clearPolling w) = sidebarRefs w.
Proof. unfold clearPolling. by destruct (pollingIntervalRef w). Qed.

Lemma resume_sidebarRefs caller w : sidebarRefs (resume caller w) = sidebarRefs w.
Proof. destruct caller; simpl; [done| |done]. by case_decide. Qed.

Lemma step_sidebar_ref e w w' :
  ref_pollingInterval (sidebarRefs w) = None ->
  step e w = Some w' ->
  ref_pollingInterval (sidebarRefs w') = None.
Proof.
  intros H Hstep. destruct e; simpl in Hstep.
  - by injection Hstep as <-.
  - injection Hstep as <-. unfold selectConversation. destruct id; [done|].
    by rewrite resume_sidebarRefs.
  - injection Hstep as <-. apply createNewConversation_inSidebar.
  - by injection Hstep as <-.
  - by injection Hstep as <-.
  - by injection Hstep as <-.
  - destruct (timers w !! t); [|discriminate]. by injection Hstep as <-.
  - destruct (pending w !! r) as [k|]; [|discriminate].
    destruct k, s; simpl in Hstep; try discriminate; injection Hstep as <-.
    + unfold fetchHistory_settled. rewrite resume_sidebarRefs. by destruct result.
    + unfold selectConversation_settled. rewrite resume_sidebarRefs.
      by destruct result.
    + unfold deleteConversation_settled. destruct result; [|done]. by case_decide.
    + unfold sendMessage_settled. destruct result as [response|]; [|done].
      unfold startPolling. simpl. rewrite clearPolling_sidebarRefs.
      by destruct selected.
    + unfold pollTick_settled. destruct result as [statusResponse|].
      * destruct (isTerminal _); [|done].
        destruct (nullish _ _).
        -- unfold selectConversation. simpl. by rewrite clearPolling_sidebarRefs.
        -- simpl. by rewrite clearPolling_sidebarRefs.
      * simpl. by rewrite clearPolling_sidebarRefs.
Qed.

Lemma reachable_sidebar_ref w :
  reachable w -> ref_pollingInterval (sidebarRefs w) = None.
Proof.
  intros [es Hrun]. revert Hrun.
  assert (H0 : ref_pollingInterval (sidebarRefs initialWorld) = None) by reflexivity.
  revert H0. generalize initialWorld.
  induction es as [|e es IH]; intros v Hv Hrun; simpl in Hrun.
  - by injection Hrun as <-.
  - destruct (step e v) as [v'|] eqn:Hstep; [|discriminate].
    eapply IH; [|exact Hrun]. by eapply step_sidebar_ref.
Qed.

(** X22. Whatever sequence of tasks the application has gone through (calls
    of the operations, firings of the timer, settlements of requests), at
    most one interval timer is live. [clearPolling], run on the instance
    that started the poll, leaves none, so [startPolling], which clears
    before it sets, leaves exactly its own timer. *)
Theorem at_most_one_poll_timer es w :
  run es initialWorld = Some w ->
  (size (timers w) <= 1)%nat
  /\ timers (clearPolling w) = ∅
  /\ (forall jobId selected,
        timers (startPolling jobId selected w)
        = {[ nextTimer w := {| poll_jobId := jobId;
                               poll_selectedConversationId := selected |} ]}).
Proof.
  intros Hrun.
  assert (H : timer_owned w) by (apply reachable_timer_owned; by exists es).
  split; [by apply timer_owned_size|].
  split; [apply (clearPolling_no_timer w H)|].
  intros; apply (startPolling_timers _ _ w H).
Qed.

(** C1, as the code runs. In every world the application can reach at most
    one interval timer is live. [createNewConversation], however, cancels
    none: [Sidebar], its only caller, runs it on its own instance of the
    hook, whose [pollingIntervalRef] is never set, while the timer of a poll
    is held by the ref of the instance of [ChatInterface]. The selection and
    the message list are cleared; the timers and the ref of the poll are as
    before, and a timer that was live still fires. *)
Theorem createNewConversation_leaves_the_timer (w : World) :
  reachable w ->
  (size (timers w) <= 1)%nat
  /\ ref_pollingInterval (sidebarRefs w) = None
  /\ exists w',
       step CreateNewConversation w = Some w'
       /\ timers w' = timers w
       /\ pollingIntervalRef w' = pollingIntervalRef w
       /\ selectedConversationId (store w') = None
       /\ messages (store w') = []
       /\ forall t closure,
            timers w !! t = Some closure ->
            step (IntervalFires t) w' = Some (await (AwaitJobStatus closure) w').
Proof.
  intros Hreach.
  pose proof (reachable_sidebar_ref w Hreach) as Hsidebar.
  split; [by apply timer_owned_size, reachable_timer_owned|].
  split; [exact Hsidebar|].
  destruct (createNewConversation_inSidebar w)
    as (Hstore & Href & _ & Htimers & _).
  rewrite Hsidebar in Htimers.
  eexists. split; [reflexivity|]. split; [exact Htimers|].
  split; [exact Href|]. split; [by rewrite Hstore|]. split; [by rewrite Hstore|].
  intros t closure Ht. cbn [step]. by rewrite Htimers, Ht.
Qed.


(** ** The formatter *)

Section FormatterProperties.

Variable clock : Clock.


Lemma or_undefined_Some s t : or_undefined s = Some t -> s = Some t /\ t <> "".
Proof.
  destruct s as [u|]; simpl; [|discriminate].
  destruct (String.eqb_spec u ""); [discriminate|]. intros [= <-]. done.
Qed.

Lemma or_undefined_nonempty t : t <> "" -> or_undefined (Some t) = Some t.
Proof. intros H. simpl. by destruct (String.eqb_spec t ""). Qed.

(** C9, as the code has it. The formatter is a function of the wire
    message alone and is defined on every wire message. It renders the
    timestamp with the locale, copies id (as decimal text), content and
    author flag, and sets the error to [null], which shows no error text.
    A content type or file path that is a non-empty string is passed
    through unchanged, whatever its value; [null] and the empty string
    both come out absent. *)
Theorem convertApiMessage_fields (apiMessage : ApiMessageType) :
  let m := convertApiMessage clock apiMessage in
  msg_id m = pretty (api_id apiMessage)
  /\ msg_content m = api_content apiMessage
  /\ msg_isUser m = api_is_from_user apiMessage
  /\ msg_timestamp m = toLocaleTimeString clock (api_timestamp apiMessage)
  /\ (forall t, t <> "" ->
        (api_content_type apiMessage = Some t <-> msg_contentType m = Some t)
        /\ (api_file_path apiMessage = Some t <-> msg_filePath m = Some t))
  /\ (msg_contentType m = None <->
        api_content_type apiMessage = None \/ api_content_type apiMessage = Some "")
  /\ (msg_filePath m = None <->
        api_file_path apiMessage = None \/ api_file_path apiMessage = Some "")
  /\ msg_error m = ErrorNull
  /\ error_text (msg_error m) = None.
Proof.
  simpl. repeat split; try (intros ->; by apply or_undefined_nonempty);
    try (intros Hm; by apply or_undefined_Some in Hm as [-> _]).
  - destruct (api_content_type apiMessage) as [u|]; simpl; [|by left].
    destruct (String.eqb_spec u ""); [subst; by right|discriminate].
  - by intros [-> | ->].
  - destruct (api_file_path apiMessage) as [u|]; simpl; [|by left].
    destruct (String.eqb_spec u ""); [subst; by right|discriminate].
  - by intros [-> | ->].
Qed.

End FormatterProperties.

(** ** The operations of the hook *)

Section Operations.

(** The reading of [Date] in the task under consideration. *)
Variable clock : Clock.


Lemma step_settles r s k w :
  pending w !! r = Some k ->
  step (Settles r s clock) w
  = resumeWith k s clock (settled r w).
Proof. intros H. simpl. by rewrite H. Qed.

(** Run a list of events on a symbolic world: unfold one step at a time
    and resolve the lookups among the requests issued on the way. *)
Ltac run_events :=
  cbn [run step];
  repeat first
    [ rewrite lookup_insert_eq
    | rewrite lookup_delete_ne by lia
    | rewrite lookup_insert_ne by lia
    | progress cbn [run step resumeWith pending await settled
                    fetchHistory fetchHistory_settled resume dispatch
                    nextRequest] ].

(** C5. [selectConversation(id)] for a real id changes the selection and
    the loading flag at the call and leaves the message list as it was
    while the request is in flight; when the request succeeds, in whatever
    world that happens, one transition replaces the whole message list by
    the server's list formatted element by element, whatever the list held
    before. *)
Theorem selectConversation_replaces_messages (id : Z)
    (messagesData : list ApiMessageType) (w : World) :
  exists w1,
    step (SelectConversation (Some id)) w = Some w1
    /\ selectedConversationId (store w1) = Some id
    /\ messages (store w1) = messages (store w)
    /\ pending w1 !! nextRequest w = Some (AwaitConversationMessages id TopLevel)
    /\ forall v r,
         pending v !! r = Some (AwaitConversationMessages id TopLevel) ->
         exists v',
           step (Settles r (ConversationMessagesSettled (Some messagesData)) clock) v
           = Some v'
           /\ messages (store v') = map (convertApiMessage clock) messagesData
           /\ isLoadingMessages (store v') = false
           /\ selectedConversationId (store v') = selectedConversationId (store v).
Proof.
  eexists. split; [reflexivity|].
  split; [reflexivity|]. split; [reflexivity|].
  split; [apply lookup_insert_eq|].
  intros v r Hr. eexists. split; [by rewrite (step_settles _ _ _ _ Hr)|].
  repeat split.
Qed.

(** C8. [fetchHistory] is idempotent: against the same server list, two
    calls (one after the other, or both issued before either settles, in
    either order of settlement) leave the store exactly as one call does,
    with the conversation list equal to the server's list; when the request
    fails, the error is set to a non-empty text and the conversation list is
    the one before the call. *)
Theorem fetchHistory_idempotent (conversationsData : list Conversation)
    (w : World) :
  let r := nextRequest w in
  let ok := ChatHistorySettled (Some conversationsData) in
  exists once twice overlapped swapped failed,
    run [FetchHistory; Settles r ok clock] w = Some once
    /\ run [FetchHistory; Settles r ok clock;
            FetchHistory; Settles (S r) ok clock] w = Some twice
    /\ run [FetchHistory; FetchHistory;
            Settles r ok clock; Settles (S r) ok clock] w = Some overlapped
    /\ run [FetchHistory; FetchHistory;
            Settles (S r) ok clock; Settles r ok clock] w = Some swapped
    /\ run [FetchHistory; Settles r (ChatHistorySettled None) clock] w = Some failed
    /\ conversations (store once) = conversationsData
    /\ store twice = store once
    /\ store overlapped = store once
    /\ store swapped = store once
    /\ conversations (store failed) = conversations (store w)
    /\ (exists msg, error (store failed) = Some msg /\ msg <> "").
Proof.
  intros r ok. subst ok.
  eexists _, _, _, _, _.
  split; [by run_events|]. split; [by run_events|].
  split; [by run_events|]. split; [by run_events|].
  split; [by run_events|].
  repeat split. eexists. split; [reflexivity|discriminate].
Qed.

(** C7. In every world the hook can reach, when the status request of a
    poll tick is rejected, the timer is cancelled and the ref cleared, so
    no interval fires any more; the sending flag is false, the global error
    is a non-empty text, and the job progress is reset to inactive. *)
Theorem poll_transport_failure (closure : PollClosure)
    (r : nat) (w : World) :
  reachable w ->
  pending w !! r = Some (AwaitJobStatus closure) ->
  exists w',
    step (Settles r (JobStatusSettled None) clock) w = Some w'
    /\ timers w' = ∅
    /\ pollingIntervalRef w' = None
    /\ (forall t, step (IntervalFires t) w' = None)
    /\ isSendingMessage (store w') = false
    /\ (exists msg, error (store w') = Some msg /\ msg <> "")
    /\ currentJobProgress (store w') = inactiveProgress.
Proof.
  intros Hreach Hr. apply reachable_timer_owned in Hreach.
  eexists. split; [by rewrite (step_settles _ _ _ _ Hr)|].
  assert (Hno : no_timer (clearPolling (settled r w))).
  { apply clearPolling_no_timer. by eapply poller_timer_owned; [|exact Hreach]. }
  destruct Hno as [Hempty Href].
  assert (Htimers : timers (pollTick_settled closure None (settled r w)) = ∅)
    by exact Hempty.
  split; [exact Htimers|]. split; [exact Href|].
  split; [intros t; simpl in *; by rewrite Hempty, lookup_empty|].
  split; [reflexivity|].
  split; [eexists; split; [reflexivity|discriminate]|reflexivity].
Qed.

(** C2, as the code has it. [deleteConversation(id)] removes the
    conversation from the list at the call. When the server call fails, in
    whatever world that happens, the list is restored verbatim to its value
    before the call and the error is set; the selection and the message
    list are left as they are. They are cleared only when the server call
    succeeds and [id] was the selected conversation at the call. *)
Theorem deleteConversation_failure_rolls_back (id : Z)
    (w v : World) :
  let r := nextRequest w in
  pending v !! r = pending (deleteConversation id w) !! r ->
  conversations (store (deleteConversation id w))
  = without id (conversations (store w))
  /\ (exists v',
        step (Settles r (DeleteConversationSettled None) clock) v = Some v'
        /\ conversations (store v') = conversations (store w)
        /\ selectedConversationId (store v') = selectedConversationId (store v)
        /\ messages (store v') = messages (store v)
        /\ error (store v') = Some "删除对话失败，请稍后再试")
  /\ (exists v',
        step (Settles r (DeleteConversationSettled (Some ())) clock) v = Some v'
        /\ conversations (store v') = conversations (store v)
        /\ if decide (selectedConversationId (store w) = Some id)
           then selectedConversationId (store v') = None
                /\ messages (store v') = []
           else selectedConversationId (store v') = selectedConversationId (store v)
                /\ messages (store v') = messages (store v)).
Proof.
  intros r Hr. subst r. simpl in Hr. rewrite lookup_insert_eq in Hr.
  split; [reflexivity|]. split.
  - eexists. split; [by rewrite (step_settles _ _ _ _ Hr)|]. done.
  - eexists. split; [by rewrite (step_settles _ _ _ _ Hr)|].
    unfold deleteConversation_settled. by case_decide.
Qed.

(** C3, as the code has it. Once the poll timer is cancelled no interval
    fires, so no new tick is issued. The response of a tick that was already
    in flight is still handled, and handled exactly as for a live poll: the
    callback makes no check that its poll is still the active one. It
    writes the reported progress into the job progress; for a status that
    is not terminal that is its only effect, and for a terminal status it
    goes on to clear the sending flag and, when the anchor or the selection
    captured by the poll names a conversation, to select that conversation
    and fetch its messages. *)
Theorem stray_tick_response_is_applied (closure : PollClosure)
    (statusResponse : StatusResponse) (r : nat) (w : World) :
  timers w = ∅ ->
  pending w !! r = Some (AwaitJobStatus closure) ->
  (forall t, step (IntervalFires t) w = None)
  /\ exists w',
       step (Settles r (JobStatusSettled (Some statusResponse)) clock) w = Some w'
       /\ w' = pollTick_settled closure (Some statusResponse) (settled r w)
       /\ (isTerminal (status statusResponse) = false ->
             store w'
             = set_currentJobProgress (store w)
                 {| isActive := true;
                    progress := status_progress statusResponse;
                    stage := status_stage statusResponse |})
       /\ (isTerminal (status statusResponse) = true ->
             isSendingMessage (store w') = false
             /\ forall id,
                  nullish (newConversationIdRef w)
                    (poll_selectedConversationId closure) = Some id ->
                  selectedConversationId (store w') = Some id
                  /\ pending w' !! nextRequest w
                     = Some (AwaitConversationMessages id (PollAfterSelect id))).
Proof.
  intros Hempty Hr. split.
  - intros t. simpl. by rewrite Hempty, lookup_empty.
  - eexists. split; [by rewrite (step_settles _ _ _ _ Hr)|].
    split; [reflexivity|]. unfold pollTick_settled. split.
    + intros ->. reflexivity.
    + intros ->.
      assert (Href : newConversationIdRef
                       (dispatch (SET_SENDING_MESSAGE false)
                          (clearPolling
                             (dispatch (SET_CURRENT_JOB_PROGRESS
                                {| isActive := true;
                                   progress := status_progress statusResponse;
                                   stage := status_stage statusResponse |})
                                (settled r w))))
                     = newConversationIdRef w).
      { simpl. unfold clearPolling. simpl. by destruct (pollingIntervalRef w). }
      rewrite Href. split.
      * destruct (nullish _ _); simpl; [reflexivity|].
        unfold clearPolling; simpl. by destruct (pollingIntervalRef w).
      * intros id ->. split; [reflexivity|]. simpl.
        assert (Hnext : nextRequest (clearPolling
                          (dispatch (SET_CURRENT_JOB_PROGRESS
                             {| isActive := true;
                                progress := status_progress statusResponse;
                                stage := status_stage statusResponse |})
                             (settled r w))) = nextRequest w).
        { unfold clearPolling; simpl. by destruct (pollingIntervalRef w). }
        rewrite Hnext. apply lookup_insert_eq.
Qed.


Lemma clearPolling_frame w :
  store (clearPolling w) = store w
  /\ newConversationIdRef (clearPolling w) = newConversationIdRef w
  /\ pending (clearPolling w) = pending w
  /\ nextRequest (clearPolling w) = nextRequest w
  /\ nextTimer (clearPolling w) = nextTimer w.
Proof. unfold clearPolling. by destruct (pollingIntervalRef w). Qed.

Lemma clearPolling_owned w :
  timer_owned w ->
  clearPolling w
  = {| store := store w;
       pollingIntervalRef := None;
       newConversationIdRef := newConversationIdRef w;
       timers := ∅;
       nextTimer := nextTimer w;
       pending := pending w;
       nextRequest := nextRequest w;
       sidebarRefs := sidebarRefs w |}.
Proof.
  intros H. destruct (clearPolling_no_timer w H) as [Hempty Href].
  destruct (clearPolling_frame w) as (Hs & Ha & Hp & Hn & Ht).
  pose proof (clearPolling_sidebarRefs w) as Hside.
  destruct (clearPolling w); simpl in *. congruence.
Qed.

(** The three tasks of a terminal tick, one at a time. *)
Lemma terminal_tick_settles closure statusResponse r w :
  timer_owned w ->
  pending w !! r = Some (AwaitJobStatus closure) ->
  isTerminal (status statusResponse) = true ->
  exists w1,
    step (Settles r (JobStatusSettled (Some statusResponse)) clock) w = Some w1
    /\ timers w1 = ∅
    /\ pollingIntervalRef w1 = None
    /\ isSendingMessage (store w1) = false
    /\ newConversationIdRef w1 = newConversationIdRef w
    /\ conversations (store w1) = conversations (store w)
    /\ match nullish (newConversationIdRef w)
               (poll_selectedConversationId closure) with
       | None =>
           currentJobProgress (store w1) = inactiveProgress
           /\ selectedConversationId (store w1) = selectedConversationId (store w)
           /\ messages (store w1) = messages (store w)
           /\ pending w1 = delete r (pending w)
       | Some id =>
           selectedConversationId (store w1) = Some id
           /\ pending w1 !! nextRequest w
              = Some (AwaitConversationMessages id (PollAfterSelect id))
           /\ nextRequest w1 = S (nextRequest w)
       end.
Proof.
  intros Hown Hr Hterm.
  eexists. split; [by rewrite (step_settles _ _ _ _ Hr)|].
  unfold resumeWith, pollTick_settled. rewrite Hterm.
  rewrite clearPolling_owned by (by eapply poller_timer_owned; [|exact Hown]).
  change (newConversationIdRef (dispatch _ _)) with (newConversationIdRef w).
  destruct (nullish (newConversationIdRef w) (poll_selectedConversationId closure))
    as [id|].
  - do 5 (split; [reflexivity|]). split; [reflexivity|].
    split; [apply lookup_insert_eq|reflexivity].
  - repeat split.
Qed.

Lemma poll_messages_settle id messagesData r v :
  pending v !! r = Some (AwaitConversationMessages id (PollAfterSelect id)) ->
  exists v',
    step (Settles r (ConversationMessagesSettled (Some messagesData)) clock) v
    = Some v'
    /\ messages (store v') = map (convertApiMessage clock) messagesData
    /\ selectedConversationId (store v') = selectedConversationId (store v)
    /\ if decide (newConversationIdRef v = Some id) then
         newConversationIdRef v' = None
         /\ pending v' !! nextRequest v = Some (AwaitChatHistory PollAfterHistory)
       else
         newConversationIdRef v' = newConversationIdRef v
         /\ conversations (store v') = conversations (store v)
         /\ pending v' = delete r (pending v)
         /\ currentJobProgress (store v') = inactiveProgress.
Proof.
  intros Hr. eexists. split; [by rewrite (step_settles _ _ _ _ Hr)|].
  unfold resumeWith, selectConversation_settled, resume.
  change (newConversationIdRef (dispatch _ _)) with (newConversationIdRef v).
  destruct (decide (newConversationIdRef v = Some id)).
  - do 3 (split; [reflexivity|]). apply lookup_insert_eq.
  - repeat split.
Qed.

Lemma poll_history_settle conversationsData r v :
  pending v !! r = Some (AwaitChatHistory PollAfterHistory) ->
  exists v',
    step (Settles r (ChatHistorySettled (Some conversationsData)) clock) v
    = Some v'
    /\ conversations (store v') = conversationsData
    /\ messages (store v') = messages (store v)
    /\ selectedConversationId (store v') = selectedConversationId (store v)
    /\ newConversationIdRef v' = newConversationIdRef v
    /\ currentJobProgress (store v') = inactiveProgress.
Proof.
  intros Hr. eexists. split; [by rewrite (step_settles _ _ _ _ Hr)|].
  repeat split.
Qed.

(** C4, as the code has it. When a poll tick reports a terminal status
    the timer is cancelled and the sending flag cleared. The conversation
    to load is the anchor if one is set, and otherwise the conversation
    that was selected when the message was sent, which the poll captured
    at its start; the selection current at the tick plays no part. With
    no conversation to load the progress is reset at once. Otherwise that
    conversation is selected and its messages are fetched; when they
    arrive they replace the message list, and then, if the anchor was the
    conversation loaded, the anchor is cleared and the conversation list
    refreshed before the progress is reset to inactive; if not, the
    progress is reset without a refresh. *)
Theorem terminal_tick_handling (closure : PollClosure)
    (statusResponse : StatusResponse) (r : nat) (w : World) :
  reachable w ->
  pending w !! r = Some (AwaitJobStatus closure) ->
  isTerminal (status statusResponse) = true ->
  exists w1,
    step (Settles r (JobStatusSettled (Some statusResponse)) clock) w = Some w1
    /\ timers w1 = ∅
    /\ pollingIntervalRef w1 = None
    /\ isSendingMessage (store w1) = false
    /\ match nullish (newConversationIdRef w)
               (poll_selectedConversationId closure) with
       | None =>
           currentJobProgress (store w1) = inactiveProgress
           /\ selectedConversationId (store w1) = selectedConversationId (store w)
           /\ messages (store w1) = messages (store w)
           /\ pending w1 = delete r (pending w)
       | Some id =>
           selectedConversationId (store w1) = Some id
           /\ pending w1 !! nextRequest w
              = Some (AwaitConversationMessages id (PollAfterSelect id))
           /\ forall messagesData, exists w2,
                step (Settles (nextRequest w)
                        (ConversationMessagesSettled (Some messagesData)) clock) w1
                = Some w2
                /\ messages (store w2) = map (convertApiMessage clock) messagesData
                /\ selectedConversationId (store w2) = Some id
                /\ if decide (newConversationIdRef w = Some id) then
                     newConversationIdRef w2 = None
                     /\ pending w2 !! S (nextRequest w)
                        = Some (AwaitChatHistory PollAfterHistory)
                     /\ forall conversationsData, exists w3,
                          step (Settles (S (nextRequest w))
                                  (ChatHistorySettled (Some conversationsData))
                                  clock) w2
                          = Some w3
                          /\ conversations (store w3) = conversationsData
                          /\ messages (store w3) = map (convertApiMessage clock) messagesData
                          /\ selectedConversationId (store w3) = Some id
                          /\ newConversationIdRef w3 = None
                          /\ currentJobProgress (store w3) = inactiveProgress
                   else
                     newConversationIdRef w2 = None
                     /\ conversations (store w2) = conversations (store w)
                     /\ pending w2 = delete (nextRequest w) (pending w1)
                     /\ currentJobProgress (store w2) = inactiveProgress
       end.
Proof.
  intros Hown Hr Hterm. apply reachable_timer_owned in Hown.
  destruct (terminal_tick_settles closure statusResponse r w Hown Hr Hterm)
    as (w1 & Hstep & Htimers & Href & Hsending & Hanchor & Hconvs & Hload).
  exists w1. split; [exact Hstep|]. split; [exact Htimers|].
  split; [exact Href|]. split; [exact Hsending|].
  destruct (nullish (newConversationIdRef w) (poll_selectedConversationId closure))
    as [id|] eqn:Hnullish; [|exact Hload].
  destruct Hload as (Hselected & Hpending & Hnext).
  split; [exact Hselected|]. split; [exact Hpending|].
  intros messagesData.
  destruct (poll_messages_settle id messagesData _ w1 Hpending)
    as (w2 & Hstep2 & Hmessages & Hselected2 & Hrest).
  exists w2. split; [exact Hstep2|]. split; [exact Hmessages|].
  split; [by rewrite Hselected2|].
  rewrite Hanchor, Hnext in Hrest.
  destruct (decide (newConversationIdRef w = Some id)) as [Heq|Hne].
  - destruct Hrest as [Hnull Hpending2]. split; [exact Hnull|].
    split; [exact Hpending2|]. intros conversationsData.
    destruct (poll_history_settle conversationsData _ w2 Hpending2)
      as (w3 & Hstep3 & Hconvs3 & Hmessages3 & Hselected3 & Hanchor3 & Hprogress).
    exists w3. split; [exact Hstep3|]. split; [exact Hconvs3|].
    split; [by rewrite Hmessages3|].
    split; [by rewrite Hselected3, Hselected2|].
    split; [by rewrite Hanchor3|exact Hprogress].
  - destruct Hrest as (Hanchor2 & Hconvs2 & Hpending2 & Hprogress).
    assert (Hnone : newConversationIdRef w = None).
    { destruct (newConversationIdRef w) as [a|]; [|done].
      simpl in Hnullish. congruence. }
    split; [by rewrite Hanchor2|]. split; [by rewrite Hconvs2|].
    split; [exact Hpending2|exact Hprogress].
Qed.

End Operations.

(** ** The pending anchor *)

Lemma no_query_pending w r : no_query w -> ~ query_pending w r.
Proof.
  intros H (k & Hk & Hq). specialize (H r k Hk). simpl in H. congruence.
Qed.

Lemma no_query_one_submission w : no_query w -> one_submission w.
Proof. intros H r Hr. by destruct (no_query_pending w r H). Qed.

Lemma quiet_refl w : quiet w w.
Proof. split; [done|by left]. Qed.

Lemma quiet_trans w1 w2 w3 : quiet w1 w2 -> quiet w2 w3 -> quiet w1 w3.
Proof.
  intros [Hq12 Ha12] [Hq23 Ha23]. split; [by auto|].
  destruct Ha23 as [-> | ->]; [done|by right].
Qed.

Lemma quiet_no_query w w' : quiet w w' -> no_query w -> no_query w'.
Proof.
  intros [Hq _] H r k Hk. simpl.
  destruct (is_query k) eqn:Hquery; [|done].
  destruct (no_query_pending w r H). apply Hq. by exists k.
Qed.

Lemma quiet_one_submission w w' :
  quiet w w' -> one_submission w -> one_submission w'.
Proof.
  intros [Hq Ha] H r Hr. destruct (H r (Hq r Hr)) as [Hnone Huniq]. split.
  - destruct Ha as [-> | ->]; done.
  - intros r' Hr'. by apply Huniq, Hq.
Qed.

(** The primitive effects are quiet, except for awaiting a submission and
    for writing an id into the anchor. *)
Lemma quiet_dispatch w a x : quiet w x -> quiet w (dispatch a x).
Proof. intros H. eapply quiet_trans; [exact H|]. split; [done|by left]. Qed.

Lemma quiet_settled w r x : quiet w x -> quiet w (settled r x).
Proof.
  intros H. eapply quiet_trans; [exact H|]. split; [|by left].
  intros r' (k & Hk & Hquery). exists k. split; [|done].
  simpl in Hk. apply lookup_delete_Some in Hk as [_ Hk]. done.
Qed.

Lemma quiet_await w k x : is_query k = false -> quiet w x -> quiet w (await k x).
Proof.
  intros Hk H. eapply quiet_trans; [exact H|]. split; [|by left].
  intros r' (k' & Hk' & Hquery). exists k'. split; [|done].
  simpl in Hk'. apply lookup_insert_Some in Hk' as [[_ <-]|[_ Hk']]; [|done].
  congruence.
Qed.

Lemma quiet_anchor_null w x : quiet w x -> quiet w (set_newConversationIdRef None x).
Proof. intros H. eapply quiet_trans; [exact H|]. split; [done|by right]. Qed.

Lemma quiet_clearPolling w x : quiet w x -> quiet w (clearPolling x).
Proof.
  intros H. eapply quiet_trans; [exact H|].
  unfold clearPolling. destruct (pollingIntervalRef x); split; done || by left.
Qed.

Lemma quiet_startPolling w jobId selected x :
  quiet w x -> quiet w (startPolling jobId selected x).
Proof.
  intros H. eapply quiet_trans; [apply quiet_clearPolling, H|].
  split; [done|by left].
Qed.

Create HintDb quiet.

#[local] Hint Resolve quiet_refl quiet_dispatch quiet_settled quiet_await
  quiet_anchor_null quiet_clearPolling quiet_startPolling : quiet.

Lemma quiet_resume w caller x : quiet w x -> quiet w (resume caller x).
Proof.
  intros H. destruct caller; simpl; [done| |by auto with quiet].
  unfold resetProgress, fetchHistory. case_decide; auto 10 with quiet.
Qed.

#[local] Hint Resolve quiet_resume : quiet.

Lemma quiet_pollTick_settled w closure result x :
  quiet w x -> quiet w (pollTick_settled closure result x).
Proof.
  intros H. unfold pollTick_settled, resetProgress.
  destruct result as [statusResponse|]; [|auto 10 with quiet].
  destruct (isTerminal _); [|auto with quiet].
  destruct (nullish _ _); [|auto 10 with quiet].
  unfold selectConversation. auto 10 with quiet.
Qed.


(** A task that neither calls [sendMessage] nor settles a submission is
    quiet. *)
Lemma step_quiet e w w' :
  is_send e = false ->
  (forall r s clock, e = Settles r s clock -> ~ query_pending w r) ->
  step e w = Some w' ->
  quiet w w'.
Proof.
  intros Hsend Hsettle Hstep. destruct e; simpl in Hstep; try discriminate.
  - injection Hstep as <-. unfold fetchHistory. auto 10 with quiet.
  - injection Hstep as <-. unfold selectConversation.
    destruct id; auto 10 with quiet.
  - injection Hstep as <-.
    destruct (createNewConversation_inSidebar w)
      as (_ & _ & Hanchor & _ & _ & Hpending & _).
    split; [|by left]. intros r (k & Hk & Hq). exists k.
    by rewrite <- Hpending.
  - injection Hstep as <-. unfold deleteConversation. auto 10 with quiet.
  - injection Hstep as <-. auto with quiet.
  - destruct (timers w !! t); [|discriminate]. injection Hstep as <-.
    auto with quiet.
  - destruct (pending w !! r) as [k|] eqn:Hk; [|discriminate].
    assert (Hquery : is_query k = false).
    { destruct (is_query k) eqn:Hq; [|done].
      destruct (Hsettle r s clock eq_refl). by exists k. }
    destruct k, s; simpl in Hstep; try discriminate; injection Hstep as <-.
    + unfold fetchHistory_settled. destruct result; auto 10 with quiet.
    + unfold selectConversation_settled. destruct result; auto 10 with quiet.
    + unfold deleteConversation_settled. destruct result; [case_decide|];
        auto 10 with quiet.
    + apply quiet_pollTick_settled. auto with quiet.
Qed.

Lemma sendMessage_one_submission content clock w :
  no_query w -> one_submission (sendMessage content clock w).
Proof.
  intros H.
  assert (Hat : forall r, query_pending (sendMessage content clock w) r ->
                          r = nextRequest w).
  { intros r (k & Hk & Hq). simpl in Hk.
    apply lookup_insert_Some in Hk as [[<- _]|[_ Hk]]; [done|].
    specialize (H r k Hk). simpl in H. congruence. }
  intros r Hr. split; [reflexivity|].
  intros r' Hr'. by rewrite (Hat r Hr), (Hat r' Hr').
Qed.

Lemma settled_query_no_query r w :
  one_submission w -> query_pending w r -> no_query (settled r w).
Proof.
  intros H Hr r' k Hk. simpl in *.
  apply lookup_delete_Some in Hk as [Hne Hk].
  destruct (is_query k) eqn:Hq; [|done].
  destruct (H r Hr) as [_ Huniq]. destruct Hne. symmetry. apply Huniq.
  by exists k.
Qed.

Lemma sendMessage_settled_pending selected result clock w :
  pending (sendMessage_settled selected result clock w) = pending w.
Proof.
  unfold sendMessage_settled. destruct result as [response|]; [|done].
  unfold startPolling, clearPolling.
  destruct selected; simpl; by destruct (pollingIntervalRef w).
Qed.

Lemma step_one_submission e w w' :
  (is_send e = true -> no_query w) ->
  one_submission w -> step e w = Some w' -> one_submission w'.
Proof.
  intros Hgate H Hstep.
  destruct (is_send e) eqn:Hsend.
  { destruct e; try discriminate. injection Hstep as <-.
    by apply sendMessage_one_submission, Hgate. }
  destruct e as [| | | | | | |r s clock];
    try (eapply quiet_one_submission; [|exact H];
         eapply step_quiet; [exact Hsend|discriminate|exact Hstep]).
  destruct (pending w !! r) as [k|] eqn:Hk;
    [|simpl in Hstep; by rewrite Hk in Hstep].
  destruct (is_query k) eqn:Hq.
  - assert (Hno : no_query (settled r w)).
    { apply settled_query_no_query; [done|]. by exists k. }
    simpl in Hstep. rewrite Hk in Hstep.
    destruct k; try discriminate. destruct s; try discriminate.
    injection Hstep as <-. apply no_query_one_submission.
    unfold no_query. by rewrite sendMessage_settled_pending.
  - eapply quiet_one_submission; [|exact H].
    eapply step_quiet; [exact Hsend| |exact Hstep].
    intros r0 s0 clock0 [= <- <- <-] (k' & Hk' & Hq'). congruence.
Qed.

Lemma run_serial_one_submission es w w' :
  one_submission w -> run_serial es w = Some w' -> one_submission w'.
Proof.
  revert w. induction es as [|e es IH]; intros w H Hrun; simpl in Hrun.
  - by injection Hrun as <-.
  - destruct (is_send e && negb (bool_decide (no_query w))) eqn:Hgate;
      [discriminate|].
    destruct (step e w) as [v|] eqn:Hstep; [|discriminate].
    eapply IH; [|exact Hrun]. eapply step_one_submission; [|exact H|exact Hstep].
    intros Hsend. rewrite Hsend in Hgate. simpl in Hgate.
    apply negb_false_iff in Hgate. by apply bool_decide_eq_true in Hgate.
Qed.

Lemma run_quiet es w w' :
  forallb (fun e => negb (is_send e)) es = true ->
  no_query w -> run es w = Some w' -> quiet w w'.
Proof.
  revert w. induction es as [|e es IH]; intros w Hes Hno Hrun; simpl in *.
  - injection Hrun as <-. apply quiet_refl.
  - apply andb_true_iff in Hes as [He Hes]. apply negb_true_iff in He.
    destruct (step e w) as [v|] eqn:Hstep;
      [|discriminate].
    assert (Hq : quiet w v).
    { eapply step_quiet; [exact He| |exact Hstep].
      intros r _ _ _. by apply no_query_pending. }
    eapply quiet_trans; [exact Hq|]. apply IH; [done| |done].
    by eapply quiet_no_query.
Qed.

(** X23. Every call of [sendMessage] sets the anchor to [null] before it
    submits, and when the submission is answered the anchor is written only
    if the submission was made from the draft state. In a run in which
    [sendMessage] is never called while an earlier submission still awaits
    its response, the anchor is still [null] when the answer arrives, so
    when the polling of the job begins the anchor is the conversation id of
    that very answer (draft) or [null] (otherwise); and until [sendMessage]
    is called again the anchor stays that id or [null]. *)
Theorem anchor_belongs_to_submission (es : list Event) (w : World) (r : nat)
    (query : string) (selected : option Z) (response : QueryResponse)
    (clock : Clock) :
  run_serial es initialWorld = Some w ->
  pending w !! r = Some (AwaitSendQuery query selected) ->
  (forall content clock' v,
      newConversationIdRef (sendMessage content clock' v) = None)
  /\ newConversationIdRef w = None
  /\ exists w',
       step (Settles r (SendQuerySettled (Some response)) clock) w = Some w'
       /\ timers w' !! nextTimer w
          = Some {| poll_jobId := job_id response;
                    poll_selectedConversationId := selected |}
       /\ pollingIntervalRef w' = Some (nextTimer w)
       /\ newConversationIdRef w' = anchor_after selected response
       /\ forall es' w'',
            forallb (fun e => negb (is_send e)) es' = true ->
            run es' w' = Some w'' ->
            newConversationIdRef w'' = anchor_after selected response
            \/ newConversationIdRef w'' = None.
Proof.
  intros Hrun Hr.
  assert (Hone : one_submission w).
  { eapply run_serial_one_submission; [|exact Hrun].
    apply no_query_one_submission. apply map_Forall_empty. }
  assert (Hpending : query_pending w r) by (by eexists).
  destruct (Hone r Hpending) as [Hnull _].
  split; [reflexivity|]. split; [exact Hnull|].
  eexists. split; [simpl; by rewrite Hr|].
  assert (Hnext : nextTimer (clearPolling
                    (dispatch (SET_CURRENT_JOB_ID (Some (job_id response)))
                       match selected with
                       | Some _ => settled r w
                       | None => set_newConversationIdRef
                                   (Some (conversation_id response)) (settled r w)
                       end)) = nextTimer w).
  { unfold clearPolling.
    destruct selected; simpl; by destruct (pollingIntervalRef w). }
  assert (Hanchor : newConversationIdRef
                      (sendMessage_settled selected (Some response) clock
                         (settled r w))
                    = anchor_after selected response).
  { unfold sendMessage_settled, startPolling, clearPolling.
    destruct selected; simpl; by destruct (pollingIntervalRef w). }
  split; [|split; [|split; [exact Hanchor|]]].
  - unfold sendMessage_settled, startPolling, setInterval. simpl.
    rewrite Hnext. apply lookup_insert_eq.
  - unfold sendMessage_settled, startPolling, setInterval. simpl.
    by rewrite Hnext.
  - intros es' w'' Hes' Hrun'.
    assert (Hno : no_query (sendMessage_settled selected (Some response) clock
                              (settled r w))).
    { unfold no_query. rewrite sendMessage_settled_pending.
      by apply settled_query_no_query. }
    destruct (run_quiet es' _ w'' Hes' Hno Hrun') as [_ [Heq|Heq]].
    + left. by rewrite Heq.
    + by right.
Qed.


(** A run of the application is a run. *)
Lemma run_app_run es w w' : run_app es w = Some w' -> run es w = Some w'.
Proof.
  revert w. induction es as [|e es IH]; intros w Hrun; simpl in *; [done|].
  destruct (offered e w); [|discriminate].
  destruct (step e w) as [v|]; [|discriminate]. by apply IH.
Qed.

(** C10, as the code runs. The reset of the anchor at the call of
    [sendMessage] does not keep an earlier submission's id out of a later
    job's poll. In the run [staleTickOverlap], which the application can
    take (the form is enabled at each of the three submissions), the second
    and the third submission overlap: the answer to the second, made from
    the draft state, writes its conversation id 43 into the anchor after the
    third call has reset it. The poll of job j3, submitted from conversation
    42, begins with the anchor 43, and its terminal tick selects and loads
    conversation 43. *)
Theorem anchor_left_over_from_earlier_submission :
  exists w w',
    run_app staleTickOverlap initialWorld = Some w
    /\ run staleTickOverlap initialWorld = Some w
    /\ timers w = {[ 2%nat := {| poll_jobId := "j3";
                                 poll_selectedConversationId := Some 42 |} ]}
    /\ newConversationIdRef w = Some 43
    /\ selectedConversationId (store w) = Some 42
    /\ run_app
         [ IntervalFires 2;
           Settles 9 (JobStatusSettled (Some (reported "completed" 100))) noon ] w
       = Some w'
    /\ selectedConversationId (store w') = Some 43
    /\ pending w' = {[ 10%nat := AwaitConversationMessages 43 (PollAfterSelect 43) ]}.
Proof.
  eexists _, _. split; [by_computation|]. split; [by_computation|].
  split; [by_computation|]. split; [by_computation|]. split; [by_computation|].
  split; [by_computation|]. split; by_computation.
Qed.

(** * Witnesses and counterexamples *)

(** Scenario A of the specification, run to its end: the third tick reports
    completion, the messages of conversation 42 arrive, then the refreshed
    history. *)
Example scenario_A_completes :
  exists w,
    run [ Settles 3 (JobStatusSettled (Some (reported "completed" 100))) noon;
          Settles 4 (ConversationMessagesSettled
                       (Some [wireMessage 420 42 "revenue 2023" (Some "text")])) noon;
          Settles 5 (ChatHistorySettled (Some [conversation 42 "revenue 2023"])) noon ]
      (after draftPolling) = Some w
    /\ selectedConversationId (store w) = Some 42
    /\ messages (store w)
       = [convertApiMessage noon (wireMessage 420 42 "revenue 2023" (Some "text"))]
    /\ conversations (store w) = [conversation 42 "revenue 2023"]
    /\ currentJobProgress (store w) = inactiveProgress
    /\ isSendingMessage (store w) = false
    /\ newConversationIdRef w = None
    /\ timers w = ∅
    /\ pending w = ∅.
Proof.
  eexists. split; [by_computation|]. repeat split; by_computation.
Qed.

(** C1, witness: the job of scenario A is being polled when the user
    presses the button for a new conversation. The timer stays live; it
    fires, the job completes, and conversation 42 is selected over the new
    draft. *)
Lemma createNewConversation_leaves_the_timer_witness :
  (exists w',
      step CreateNewConversation (after jobPolling) = Some w'
      /\ timers w' = {[ 0%nat := {| poll_jobId := "j1";
                                    poll_selectedConversationId := None |} ]}
      /\ selectedConversationId (store w') = None)
  /\ run newDraftWhilePolling initialWorld = Some (after newDraftWhilePolling)
  /\ selectedConversationId (store (after newDraftWhilePolling)) = Some 42
  /\ pollingIntervalRef (after newDraftWhilePolling) = None.
Proof.
  destruct (createNewConversation_leaves_the_timer (after jobPolling)
              ltac:(exists jobPolling; by_computation))
    as (_ & _ & w' & Hstep & Htimers & _ & Hselected & _).
  split; [|split; [|split]; by_computation].
  exists w'. split; [exact Hstep|]. split; [|exact Hselected].
  rewrite Htimers. by_computation.
Defined.

(** X22, witness: the world of scenario A with its third tick in flight. *)
Lemma at_most_one_poll_timer_witness :
  run draftPolling initialWorld = Some (after draftPolling)
  /\ (size (timers (after draftPolling)) <= 1)%nat
  /\ timers (startPolling "j2" (Some 42) (after draftPolling))
     = {[ 1%nat := {| poll_jobId := "j2";
                      poll_selectedConversationId := Some 42 |} ]}.
Proof.
  pose proof (at_most_one_poll_timer draftPolling
                (after draftPolling) ltac:(by_computation)) as (Hsize & _ & Hstart).
  split; [by_computation|]. split; [exact Hsize|]. rewrite Hstart. by_computation.
Defined.

(** C2, counterexample: conversation 7 is selected and its deletion fails.
    The list is rolled back, and conversation 7 is still selected with its
    message on screen. *)
Lemma deleteConversation_failure_counterexample :
  exists w w',
    run selectedSeven initialWorld = Some w
    /\ selectedConversationId (store w) = Some 7
    /\ run
         [DeleteConversation 7; Settles 2 (DeleteConversationSettled None) noon] w
       = Some w'
    /\ conversations (store w') = conversations (store w)
    /\ selectedConversationId (store w') <> None
    /\ messages (store w') <> [].
Proof.
  eexists _, _. split; [by_computation|]. split; [by_computation|].
  split; [by_computation|]. split; [by_computation|]. split; vm_compute; discriminate.
Qed.

(** C2, witness. *)
Lemma deleteConversation_failure_rolls_back_witness :
  exists v',
    step (Settles 2 (DeleteConversationSettled None) noon)
      (deleteConversation 7 (after selectedSeven)) = Some v'
    /\ conversations (store v') = conversations (store (after selectedSeven))
    /\ selectedConversationId (store v') = Some 7.
Proof.
  destruct (deleteConversation_failure_rolls_back noon 7
              (after selectedSeven) (deleteConversation 7 (after selectedSeven))
              ltac:(by_computation))
    as (_ & (v' & Hstep & Hconv & Hsel & _) & _).
  exists v'. split; [exact Hstep|]. split; [exact Hconv|]. exact Hsel.
Defined.

(** C3, counterexample: a run of the application. Two ticks are in flight
    when the first is answered with a terminal status; the timer is
    cancelled. The user opens conversation 7. The response of the second
    tick then arrives, also terminal, and is applied: conversation 42 is
    selected over the user's choice and its messages are fetched again. *)
Lemma stray_tick_counterexample :
  exists w w',
    run_app staleTick initialWorld = Some w
    /\ run staleTick initialWorld = Some w
    /\ timers w = ∅ /\ pollingIntervalRef w = None
    /\ step
         (Settles 3 (JobStatusSettled (Some (reported "completed" 100))) noon) w
       = Some w'
    /\ store w' <> store w
    /\ selectedConversationId (store w) = Some 7
    /\ selectedConversationId (store w') = Some 42
    /\ pending w' !! 6%nat
       = Some (AwaitConversationMessages 42 (PollAfterSelect 42)).
Proof.
  eexists _, _. split; [by_computation|]. split; [by_computation|].
  split; [by_computation|]. split; [by_computation|]. split; [by_computation|].
  split; [vm_compute; discriminate|]. split; [|split]; by_computation.
Qed.

(** C3, witness: in the same world the response of the second tick reports
    a running job; the progress it reports is shown though no poll is
    live. *)
Lemma stray_tick_response_is_applied_witness :
  timers (after staleTick) = ∅
  /\ (forall t, step (IntervalFires t) (after staleTick) = None)
  /\ exists w',
       step
         (Settles 3 (JobStatusSettled (Some (reported "running" 60))) noon)
         (after staleTick) = Some w'
       /\ currentJobProgress (store w')
          = {| isActive := true; progress := 60; stage := "analysis" |}.
Proof.
  destruct (stray_tick_response_is_applied noon
              {| poll_jobId := "j1"; poll_selectedConversationId := None |}
              (reported "running" 60) 3 (after staleTick)
              ltac:(by_computation) ltac:(by_computation))
    as (Hfire & w' & Hstep & _ & Hrunning & _).
  split; [by_computation|]. split; [exact Hfire|].
  exists w'. split; [exact Hstep|]. by rewrite (Hrunning ltac:(by_computation)).
Defined.

(** C4, counterexample: the question was sent from conversation 5 and the
    user has since opened conversation 9. No anchor is set. The terminal
    tick loads conversation 5, the one selected when the message was sent,
    and selects it; nothing is fetched for conversation 9, the one selected
    at the tick. *)
Lemma terminal_tick_counterexample :
  exists w w',
    run movedSelection initialWorld = Some w
    /\ selectedConversationId (store w) = Some 9
    /\ newConversationIdRef w = None
    /\ step
         (Settles 3 (JobStatusSettled (Some (reported "completed" 100))) noon) w
       = Some w'
    /\ selectedConversationId (store w') = Some 5
    /\ pending w' = {[ 4%nat := AwaitConversationMessages 5 (PollAfterSelect 5) ]}.
Proof.
  eexists _, _. split; [by_computation|]. split; [by_computation|].
  split; [by_computation|]. split; [by_computation|]. split; by_computation.
Qed.

(** C4, witness: scenario A, the third tick reporting completion. *)
Lemma terminal_tick_handling_witness :
  exists w1,
    step
      (Settles 3 (JobStatusSettled (Some (reported "completed" 100))) noon)
      (after draftPolling) = Some w1
    /\ timers w1 = ∅
    /\ isSendingMessage (store w1) = false
    /\ selectedConversationId (store w1) = Some 42.
Proof.
  destruct (terminal_tick_handling noon
              {| poll_jobId := "j1"; poll_selectedConversationId := None |}
              (reported "completed" 100) 3 (after draftPolling)
              ltac:(exists draftPolling; by_computation) ltac:(by_computation) ltac:(by_computation))
    as (w1 & Hstep & Htimers & _ & Hsending & Hload).
  exists w1. split; [exact Hstep|]. split; [exact Htimers|].
  split; [exact Hsending|]. apply Hload.
Defined.

(** C5, witness: conversation 7 is loaded over an optimistic echo. *)
Lemma selectConversation_replaces_messages_witness :
  exists w1 w2,
    step (SelectConversation (Some 7))
      (sendMessage "revenue 2023" noon initialWorld) = Some w1
    /\ messages (store w1) = [createUserMessage "revenue 2023" noon]
    /\ step
         (Settles 1 (ConversationMessagesSettled
                       (Some [wireMessage 70 7 "gross margin" None])) noon) w1
       = Some w2
    /\ messages (store w2)
       = [convertApiMessage noon (wireMessage 70 7 "gross margin" None)].
Proof.
  destruct (selectConversation_replaces_messages noon 7
              [wireMessage 70 7 "gross margin" None]
              (sendMessage "revenue 2023" noon initialWorld))
    as (w1 & Hstep & _ & Hmessages & Hpending & Hsettle).
  destruct (Hsettle w1 1%nat Hpending) as (w2 & Hstep2 & Hmessages2 & _).
  exists w1, w2. split; [exact Hstep|]. split; [exact Hmessages|].
  split; [exact Hstep2|]. exact Hmessages2.
Defined.


(** C7, witness: the third tick of scenario A is rejected. *)
Lemma poll_transport_failure_witness :
  exists w',
    step (Settles 3 (JobStatusSettled None) noon) (after draftPolling)
    = Some w'
    /\ timers w' = ∅
    /\ isSendingMessage (store w') = false
    /\ (exists msg, error (store w') = Some msg /\ msg <> "")
    /\ currentJobProgress (store w') = inactiveProgress.
Proof.
  destruct (poll_transport_failure noon
              {| poll_jobId := "j1"; poll_selectedConversationId := None |}
              3 (after draftPolling)
              ltac:(exists draftPolling; by_computation) ltac:(by_computation))
    as (w' & Hstep & Htimers & _ & _ & Hsending & Herror & Hprogress).
  exists w'. split; [exact Hstep|]. split; [exact Htimers|].
  split; [exact Hsending|]. split; [exact Herror|exact Hprogress].
Defined.

(** C9, counterexample: a wire message whose content type and file path are
    the empty string. Both come out absent, not unchanged. *)
Lemma convertApiMessage_empty_counterexample :
  let apiMessage :=
    {| api_id := 70; api_conversation_id := 7; api_user_id := None;
       api_content := "gross margin"; api_content_type := Some "";
       api_file_path := Some ""; api_timestamp := "2024-01-01T09:00:00";
       api_is_from_user := false |} in
  msg_contentType (convertApiMessage noon apiMessage)
  <> api_content_type apiMessage
  /\ msg_filePath (convertApiMessage noon apiMessage)
     <> api_file_path apiMessage.
Proof. split; discriminate. Qed.

(** C9, witness: a content type the renderer does not know. *)
Lemma convertApiMessage_fields_witness :
  msg_contentType
    (convertApiMessage noon
       (wireMessage 70 7 "gross margin" (Some "heatmap")))
  = Some "heatmap".
Proof.
  destruct (convertApiMessage_fields noon
              (wireMessage 70 7 "gross margin" (Some "heatmap")))
    as (_ & _ & _ & _ & Hpass & _).
  destruct (Hpass "heatmap") as [[Hto _] _]; [discriminate|].
  exact (Hto ltac:(by_computation)).
Defined.

(** X23, witness: a second question from the draft state, sent once the
    first has been answered with conversation 42. The call resets the
    anchor, and the answer sets it to the id it brings, 43. *)
Lemma anchor_belongs_to_submission_witness :
  newConversationIdRef (after jobPolling) = Some 42
  /\ run_serial secondDraftQuestion initialWorld = Some (after secondDraftQuestion)
  /\ newConversationIdRef (after secondDraftQuestion) = None
  /\ exists w',
       step (Settles 1 (answered "j2" 43) noon) (after secondDraftQuestion)
       = Some w'
       /\ newConversationIdRef w' = Some 43.
Proof.
  destruct (anchor_belongs_to_submission
              secondDraftQuestion (after secondDraftQuestion) 1
              "net margin" None
              {| job_id := "j2"; conversation_id := 43 |} noon
              ltac:(by_computation) ltac:(by_computation))
    as (_ & Hnull & w' & Hstep & _ & _ & Hanchor & _).
  split; [by_computation|]. split; [by_computation|]. split; [exact Hnull|].
  exists w'. split; [exact Hstep|]. exact Hanchor.
Defined.

(** * Further properties *)

(** ** The store *)

Lemma reducer_messages s a :
  replaces_messages a = false ->
  messages (chatReducer s a) = (messages s ++ added [a])%list.
Proof.
  destruct a; simpl; try discriminate; intros _;
    by rewrite ?app_nil_r.
Qed.

Lemma added_cons a actions : added (a :: actions) = (added [a] ++ added actions)%list.
Proof. unfold added. simpl. by destruct a. Qed.

(** X1. Whatever actions are dispatched, as long as none of them is
    [SET_MESSAGES], the message list afterwards is the list before followed
    by the messages the [ADD_MESSAGE] actions carried, in the order of
    dispatch: nothing is dropped, reordered or deduplicated. *)
Theorem reduce_keeps_message_order (state : ChatState) (actions : list ChatAction) :
  forallb (fun a => negb (replaces_messages a)) actions = true ->
  messages (reduce state actions) = (messages state ++ added actions)%list.
Proof.
  revert state. induction actions as [|a actions IH]; intros state Hall.
  - simpl. by rewrite app_nil_r.
  - simpl in Hall. apply andb_true_iff in Hall as [Ha Hall].
    apply negb_true_iff in Ha.
    rewrite (added_cons a actions).
    change (reduce state (a :: actions)) with (reduce (chatReducer state a) actions).
    rewrite (IH _ Hall), (reducer_messages _ _ Ha).
    by rewrite app_assoc.
Qed.

Lemma reduce_keeps_message_order_witness :
  messages (reduce (store (after selectedSeven))
              [ADD_MESSAGE (createUserMessage "net margin" noon);
               SET_SENDING_MESSAGE true;
               ADD_MESSAGE (createErrorMessage "no answer" noon);
               CLEAR_ERROR])
  = (messages (store (after selectedSeven))
     ++ [createUserMessage "net margin" noon;
         createErrorMessage "no answer" noon])%list.
Proof.
  apply (reduce_keeps_message_order (store (after selectedSeven))
           [ADD_MESSAGE (createUserMessage "net margin" noon);
            SET_SENDING_MESSAGE true;
            ADD_MESSAGE (createErrorMessage "no answer" noon);
            CLEAR_ERROR]).
  by_computation.
Defined.

(** ** Paths and URLs *)

Lemma endsWith_append_slash s : endsWith (s +:+ "/") "/" = true.
Proof.
  induction s as [|a s IH]; [reflexivity|].
  simpl. rewrite IH. apply orb_true_r.
Qed.

Lemma dropLast_append_slash s : dropLast (s +:+ "/") = s.
Proof.
  induction s as [|a s IH]; [reflexivity|].
  simpl. destruct s as [|b s]; [reflexivity|].
  simpl in *. by rewrite IH.
Qed.

(** X2. In the URL of a file, one slash at the end of the base URL and
    one slash at the start of the file path make no difference: with or
    without them the URL is the base, [/file/], and the path. *)
Theorem getFileContentUrl_slashes (baseURL filePath : string) :
  endsWith baseURL "/" = false ->
  startsWith filePath "/" = false ->
  let url := baseURL +:+ "/file/" +:+ filePath in
  getFileContentUrl (Some baseURL) filePath = url
  /\ getFileContentUrl (Some (baseURL +:+ "/")) filePath = url
  /\ getFileContentUrl (Some baseURL) ("/" +:+ filePath) = url
  /\ getFileContentUrl (Some (baseURL +:+ "/")) ("/" +:+ filePath) = url
  /\ getFileContentUrl None filePath = "/file/" +:+ filePath.
Proof.
  intros Hbase Hpath url. subst url. unfold getFileContentUrl.
  cbn -[startsWith endsWith dropLast sliceFrom].
  change (startsWith ("/" +:+ filePath) "/") with true.
  change (sliceFrom 1 ("/" +:+ filePath)) with filePath.
  change (endsWith "" "/") with false.
  rewrite Hbase, Hpath, endsWith_append_slash, dropLast_append_slash.
  repeat split.
Qed.

Lemma getFileContentUrl_slashes_witness :
  getFileContentUrl (Some "/api/") "/output/margins.csv"
  = "/api/file/output/margins.csv".
Proof.
  apply (getFileContentUrl_slashes "/api" "output/margins.csv");
    by_computation.
Defined.

Lemma startsWith_output_no_dot s :
  startsWith s "output/" = true -> stripDotPrefix s = s.
Proof.
  destruct s as [|a s]; [discriminate|]. simpl.
  intros H. apply andb_true_iff in H as [Ha _].
  apply Ascii.eqb_eq in Ha as ->. reflexivity.
Qed.

Lemma startsWith_slash_output s :
  startsWith s "/output/" = true -> startsWith (sliceFrom 1 s) "output/" = true.
Proof.
  destruct s as [|a s]; [discriminate|]. simpl.
  intros H. by apply andb_true_iff in H as [_ H].
Qed.

(** X3. The path a viewer (image or table) requests always lies under
    [output/], whatever path the message carried, and processing a path
    twice gives the same as processing it once. *)
Theorem viewerPath_under_output (path : string) :
  startsWith (viewerPath path) "output/" = true
  /\ viewerPath (viewerPath path) = viewerPath path
  /\ startsWith (viewerEndpoint path) "/file/output/" = true.
Proof.
  assert (Hunder : startsWith (viewerPath path) "output/" = true).
  { unfold viewerPath.
    destruct (startsWith (stripDotPrefix path) "output/") eqn:H1; [done|].
    destruct (startsWith (stripDotPrefix path) "/output/") eqn:H2; [|done].
    by apply startsWith_slash_output. }
  split; [exact Hunder|]. split; [|exact Hunder].
  unfold viewerPath at 1.
  rewrite (startsWith_output_no_dot _ Hunder). by rewrite Hunder.
Qed.

(** X4. A file path of the form [output/...] reaches the server as it is,
    also when the message carried it behind a leading slash or behind one or
    two of the prefixes [./] and [../]: [ContentDisplay] strips one such
    prefix and the viewer another. *)
Theorem viewer_request_of_message_path (path : string) :
  startsWith path "output/" = true ->
  let endpoint := "/file/" +:+ path in
  viewerEndpoint (processPath path) = endpoint
  /\ viewerEndpoint (processPath ("/" +:+ path)) = endpoint
  /\ (forall first second,
        first ∈ ["./"; "../"] -> second ∈ [""; "./"; "../"] ->
        viewerEndpoint (processPath (first +:+ second +:+ path)) = endpoint).
Proof.
  intros Hpath endpoint.
  assert (Hne : String.eqb path "" = false) by (by destruct path).
  assert (Hview : viewerPath path = path).
  { unfold viewerPath. by rewrite (startsWith_output_no_dot _ Hpath), Hpath. }
  assert (Hproc : processPath path = path).
  { unfold processPath. by rewrite Hne, (startsWith_output_no_dot _ Hpath). }
  assert (Hslash : viewerPath ("/" +:+ path) = path).
  { unfold viewerPath, stripDotPrefix. simpl.
    destruct path as [|a s]; [discriminate|]. simpl in Hpath.
    apply andb_true_iff in Hpath as [Ha Hs].
    pose proof Ha as Ha'. apply Ascii.eqb_eq in Ha' as ->. simpl.
    by rewrite Hs. }
  assert (Hdot : viewerPath ("./" +:+ path) = path).
  { unfold viewerPath. change (stripDotPrefix ("./" +:+ path)) with path.
    by rewrite Hpath. }
  assert (Hdots : viewerPath ("../" +:+ path) = path).
  { unfold viewerPath. change (stripDotPrefix ("../" +:+ path)) with path.
    by rewrite Hpath. }
  assert (Hstrip1 : forall p, processPath ("./" +:+ p) = p) by reflexivity.
  assert (Hstrip2 : forall p, processPath ("../" +:+ p) = p) by reflexivity.
  unfold viewerEndpoint, endpoint. split; [by rewrite Hproc, Hview|].
  split.
  { change (processPath ("/" +:+ path)) with ("/" +:+ path). by rewrite Hslash. }
  intros first second Hfirst Hsecond.
  apply list_elem_of_In in Hfirst. apply list_elem_of_In in Hsecond.
  simpl in Hfirst, Hsecond.
  destruct Hfirst as [<-|[<-|[]]]; destruct Hsecond as [<-|[<-|[<-|[]]]];
    rewrite ?Hstrip1, ?Hstrip2;
    change ("" +:+ path) with path;
    first [by rewrite Hview | by rewrite Hdot | by rewrite Hdots].
Qed.

Lemma viewer_request_of_message_path_witness :
  viewerEndpoint (processPath "./../output/plots/margins.png")
  = "/file/output/plots/margins.png".
Proof.
  destruct (viewer_request_of_message_path "output/plots/margins.png"
              ltac:(by_computation)) as (_ & _ & Hprefixed).
  apply (Hprefixed "./" "../"); apply list_elem_of_In; simpl; auto.
Defined.

(** ** The progress bar *)

(** X5. The width of the progress bar is a percentage between 0 and 100
    whatever progress the server reports; a progress between 0 and 100 is
    shown as it is, and the width grows with the progress. *)
Theorem normalizedProgress_bounds (p q : Z) :
  0 <= normalizedProgress p <= 100
  /\ (0 <= p <= 100 -> normalizedProgress p = p)
  /\ (p <= q -> normalizedProgress p <= normalizedProgress q)
  /\ (p <= 0 -> normalizedProgress p = 0)
  /\ (100 <= p -> normalizedProgress p = 100).
Proof. unfold normalizedProgress. lia. Qed.

Lemma normalizedProgress_bounds_witness :
  normalizedProgress 60 = 60 /\ normalizedProgress 130 = 100.
Proof.
  destruct (normalizedProgress_bounds 60 130) as (_ & Hid & _).
  destruct (normalizedProgress_bounds 130 130) as (_ & _ & _ & _ & Hhigh).
  split; [apply Hid; lia|apply Hhigh; lia].
Defined.

(** ** The form and the renderer *)

(** X6. Submitting the form of the chat view does nothing when the value
    is blank, when a message is being sent, or when the mock progress runs;
    otherwise it calls [sendMessage] with the trimmed value, which has no
    white space left to trim, so the second blank check (in
    [handleSendMessage]) never stops a submission that came through the
    form. *)
Theorem submitForm_sends_trimmed (value : string) (mockActive : bool)
    (clock : Clock) (w : World) :
  submitForm value mockActive clock w
  = (if blank value || (isSendingMessage (store w) || mockActive) then w
     else sendMessage (trim value) clock w)
  /\ trim (trim value) = trim value
  /\ blank (trim value) = blank value.
Proof.
  assert (Hblank : blank (trim value) = blank value)
    by (unfold blank; by rewrite trim_idempotent).
  split; [|split; [apply trim_idempotent|exact Hblank]].
  unfold submitForm, handleSubmit, blank.
  destruct (String.eqb (trim value) "") eqn:Hvalue; [reflexivity|].
  destruct (isSendingMessage (store w) || mockActive); [reflexivity|].
  simpl. unfold handleSendMessage, blank. by rewrite trim_idempotent, Hvalue.
Qed.

Lemma contentDisplay_or_undefined content contentType filePath error :
  contentDisplay content (or_undefined contentType) (or_undefined filePath) error
  = contentDisplay content contentType filePath error.
Proof.
  destruct contentType as [t|], filePath as [p|]; simpl or_undefined;
    try destruct (String.eqb_spec t ""); try destruct (String.eqb_spec p "");
    subst; reflexivity.
Qed.

(** X7. What a message from the server shows is decided by its wire
    fields as they are: turning a [null] or empty content type or file path
    into an absent one, as the formatter does, never changes the component
    that renders the message. A message of the user shows its content as
    plain text whatever its other fields are. *)
Theorem messageBody_of_wire_message (clock : Clock) (apiMessage : ApiMessageType) :
  messageBody (convertApiMessage clock apiMessage)
  = if api_is_from_user apiMessage then PlainText (api_content apiMessage)
    else contentDisplay (api_content apiMessage) (api_content_type apiMessage)
           (api_file_path apiMessage) ErrorNull.
Proof.
  unfold messageBody, convertApiMessage. simpl.
  destruct (api_is_from_user apiMessage); [reflexivity|].
  apply contentDisplay_or_undefined.
Qed.

(** X8. The optimistic echo built by [createUserMessage] shows exactly the
    content typed. A message built by [createErrorMessage] shows the error
    panel with its text; only for an empty text is there no panel, and the
    fixed content of the message is shown instead. *)
Theorem messageBody_of_local_messages (text : string) (clock : Clock) :
  messageBody (createUserMessage text clock) = PlainText text
  /\ messageBody (createErrorMessage text clock)
     = (if String.eqb text "" then Markdown "发生错误" else ErrorPanel text).
Proof.
  split; [reflexivity|].
  unfold messageBody, createErrorMessage, contentDisplay. simpl.
  by destruct (String.eqb text "").
Qed.

(** ** Failures and races of the operations *)

(** Run a list of events on a symbolic world, resolving the lookups among
    the requests issued on the way. *)
Ltac run_symbolic :=
  repeat first
    [ rewrite lookup_insert_eq
    | rewrite lookup_delete_ne by lia
    | rewrite lookup_insert_ne by lia
    | rewrite decide_True by done
    | rewrite decide_False by done
    | progress cbn [run step resumeWith pending await settled nextRequest
                    dispatch fetchHistory fetchHistory_settled
                    selectConversation selectConversation_settled
                    deleteConversation deleteConversation_settled
                    sendMessage sendMessage_settled resume
                    set_newConversationIdRef] ].

(** X9. When the submission of a message is rejected, the sending flag is
    rolled back, the global error is set, and an error message is appended
    after the optimistic echo, which stays in the list; that last message
    renders as the error panel with the text of the global error. No timer
    is started and the anchor stays [null]; selection, conversations and job
    id are as before the call. *)
Theorem sendMessage_rejected (content : string) (called settledAt : Clock)
    (w : World) :
  let errorMsg := "发送消息失败，请稍后再试" in
  exists w',
    run [SendMessage content called;
         Settles (nextRequest w) (SendQuerySettled None) settledAt] w = Some w'
    /\ messages (store w')
       = (messages (store w)
          ++ [createUserMessage content called;
              createErrorMessage errorMsg settledAt])%list
    /\ (exists m, last (messages (store w')) = Some m
                  /\ messageBody m = ErrorPanel errorMsg)
    /\ isSendingMessage (store w') = false
    /\ error (store w') = Some errorMsg
    /\ timers w' = timers w
    /\ pollingIntervalRef w' = pollingIntervalRef w
    /\ newConversationIdRef w' = None
    /\ selectedConversationId (store w') = selectedConversationId (store w)
    /\ conversations (store w') = conversations (store w)
    /\ currentJobId (store w') = currentJobId (store w).
Proof.
  intros errorMsg. eexists. split; [by run_symbolic|].
  split; [simpl; by rewrite <- app_assoc|].
  split; [|repeat split].
  exists (createErrorMessage errorMsg settledAt). split; [|reflexivity].
  simpl. by rewrite last_snoc.
Qed.

(** X10. When the messages of a conversation cannot be fetched,
    [selectConversation(id)] leaves the message list as it was before the
    call and sets the error, but the selection stays on [id]: it is not
    changed back. *)
Theorem selectConversation_rejected (id : Z) (clock : Clock) (w : World) :
  exists w',
    run [SelectConversation (Some id);
         Settles (nextRequest w) (ConversationMessagesSettled None) clock] w
    = Some w'
    /\ selectedConversationId (store w') = Some id
    /\ messages (store w') = messages (store w)
    /\ conversations (store w') = conversations (store w)
    /\ error (store w') = Some "获取对话消息失败，请稍后再试"
    /\ isLoadingMessages (store w') = false.
Proof. eexists. split; [by run_symbolic|]. repeat split. Qed.

(** X11. Two overlapping calls of [selectConversation]: when the messages
    of the conversation selected first arrive last, they replace the list,
    so the list shown belongs to the first conversation while the selection
    is the second. *)
Theorem selectConversation_last_response_wins (first second : Z)
    (firstData secondData : list ApiMessageType) (clock : Clock) (w : World) :
  let r := nextRequest w in
  exists w',
    run [SelectConversation (Some first);
         SelectConversation (Some second);
         Settles (S r) (ConversationMessagesSettled (Some secondData)) clock;
         Settles r (ConversationMessagesSettled (Some firstData)) clock] w
    = Some w'
    /\ selectedConversationId (store w') = Some second
    /\ messages (store w') = map (convertApiMessage clock) firstData
    /\ isLoadingMessages (store w') = false
    /\ error (store w') = None.
Proof. intros r. eexists. split; [by run_symbolic|]. repeat split. Qed.

(** X12. Two overlapping deletions: each restores, on failure, the list of
    the render it was called in. When the first deletion fails and the
    second succeeds, in either order of settlement, the list ends up as it
    was before both calls, so the conversation the server did delete is
    shown again; when both succeed both are gone. *)
Theorem deleteConversation_overlapping (a b : Z) (clock : Clock) (w : World) :
  let r := nextRequest w in
  let failed := DeleteConversationSettled None in
  let done := DeleteConversationSettled (Some ()) in
  exists w1 w2 w3,
    run [DeleteConversation a; DeleteConversation b;
         Settles r failed clock; Settles (S r) done clock] w = Some w1
    /\ run [DeleteConversation a; DeleteConversation b;
            Settles (S r) done clock; Settles r failed clock] w = Some w2
    /\ run [DeleteConversation a; DeleteConversation b;
            Settles r done clock; Settles (S r) done clock] w = Some w3
    /\ conversations (store w1) = conversations (store w)
    /\ conversations (store w2) = conversations (store w)
    /\ conversations (store w3) = without b (without a (conversations (store w))).
Proof.
  intros r failed done. subst failed done.
  destruct (decide (selectedConversationId (store w) = Some a)) as [Ha|Ha],
           (decide (selectedConversationId (store w) = Some b)) as [Hb|Hb];
    (eexists _, _, _; split; [by run_symbolic|];
     split; [by run_symbolic|]; split; [by run_symbolic|]; repeat split).
Qed.

(** ** Polling *)

(** X13. While the reported status is not terminal (anything but
    [completed], [failed] and [error]), polling goes on: after any number of
    rounds the same timer is live and the refs are as before, and the only
    change to the store is that the job progress shows the last report. The
    code has no limit on the number of rounds. *)
Theorem polling_continues_while_running (reports : list StatusResponse)
    (t : nat) (closure : PollClosure) (clock : Clock) (w : World) :
  timers w !! t = Some closure ->
  forallb (fun st => negb (isTerminal (status st))) reports = true ->
  exists w',
    run (poll_rounds t (nextRequest w) reports clock) w = Some w'
    /\ timers w' = timers w
    /\ pollingIntervalRef w' = pollingIntervalRef w
    /\ newConversationIdRef w' = newConversationIdRef w
    /\ store w'
       = match last reports with
         | Some st => set_currentJobProgress (store w) (progressOf st)
         | None => store w
         end.
Proof.
  revert w. induction reports as [|st reports IH]; intros w Htimer Hrunning.
  - exists w. repeat split.
  - simpl in Hrunning. apply andb_true_iff in Hrunning as [Hst Hrunning].
    apply negb_true_iff in Hst.
    set (w1 := dispatch (SET_CURRENT_JOB_PROGRESS (progressOf st))
                 (settled (nextRequest w) (await (AwaitJobStatus closure) w))).
    assert (Hstep : run [IntervalFires t;
                         Settles (nextRequest w) (JobStatusSettled (Some st)) clock] w
                    = Some w1).
    { cbn [run step]. rewrite Htimer. cbn [run step pending await].
      rewrite lookup_insert_eq. cbn [resumeWith pollTick_settled].
      by rewrite Hst. }
    destruct (IH w1 Htimer Hrunning) as (w' & Hrun & Htimers & Href & Hanchor & Hstore).
    exists w'. split.
    { change (poll_rounds t (nextRequest w) (st :: reports) clock)
        with ([IntervalFires t;
               Settles (nextRequest w) (JobStatusSettled (Some st)) clock]
              ++ poll_rounds t (nextRequest w1) reports clock)%list.
      cbn [run app step] in Hstep |- *. rewrite Htimer in Hstep |- *.
      cbn [run step pending await] in Hstep |- *.
      rewrite lookup_insert_eq in Hstep |- *.
      cbn [resumeWith pollTick_settled] in Hstep |- *.
      rewrite Hst in Hstep |- *. exact Hrun. }
    split; [exact Htimers|]. split; [exact Href|]. split; [exact Hanchor|].
    rewrite Hstore. destruct reports as [|st' reports]; [reflexivity|].
    change (last (st :: st' :: reports)) with (last (st' :: reports)).
    destruct (last (st' :: reports)) eqn:Hlast; [reflexivity|].
    by apply last_None in Hlast.
Qed.

Lemma polling_continues_while_running_witness :
  exists w',
    run (poll_rounds 0 (nextRequest (after draftPolling))
           [reported "running" 70; reported "queued" 80;
            reported "COMPLETED" 100] noon)
      (after draftPolling) = Some w'
    /\ size (timers w') = 1%nat
    /\ currentJobProgress (store w') = progressOf (reported "COMPLETED" 100)
    /\ isSendingMessage (store w') = true.
Proof.
  destruct (polling_continues_while_running
              [reported "running" 70; reported "queued" 80;
               reported "COMPLETED" 100]
              0 {| poll_jobId := "j1"; poll_selectedConversationId := None |}
              noon (after draftPolling)
              ltac:(by_computation) ltac:(by_computation))
    as (w' & Hrun & Htimers & _ & _ & Hstore).
  exists w'. split; [exact Hrun|].
  rewrite Htimers, Hstore. repeat split; by_computation.
Defined.

(** X14. A rejected request of an operation the UI called always leaves a
    non-empty global error. *)
Theorem rejection_sets_error (k : Continuation) (r : nat) (clock : Clock)
    (w : World) :
  pending w !! r = Some k ->
  from_ui k = true ->
  exists w' msg,
    step (Settles r (rejection k) clock) w = Some w'
    /\ error (store w') = Some msg
    /\ msg <> "".
Proof.
  intros Hr Hui. cbn [step]. rewrite Hr.
  destruct k as [[| |]|id [| |]| | |]; try discriminate;
    (eexists _, _; split; [reflexivity|split; [reflexivity|discriminate]]).
Qed.

Lemma rejection_sets_error_witness :
  exists w' msg,
    step (Settles 0 (ChatHistorySettled None) noon)
      (fetchHistory TopLevel initialWorld) = Some w'
    /\ error (store w') = Some msg /\ msg <> "".
Proof.
  apply (rejection_sets_error (AwaitChatHistory TopLevel) 0 noon
           (fetchHistory TopLevel initialWorld));
    by_computation.
Defined.

(** X15. The exception: when a terminal tick loads the conversation the
    anchor names and the fetch of its messages is rejected, the error set by
    the failed fetch is cleared at once by the refresh of the history that
    follows. Once the history has arrived no error is shown, the message
    list is still the one from before the tick, and the progress is reset:
    the failure leaves no trace. *)
Theorem terminal_fetch_failure_is_silent (id : Z)
    (conversationsData : list Conversation) (clock : Clock) (r : nat) (v : World) :
  pending v !! r = Some (AwaitConversationMessages id (PollAfterSelect id)) ->
  newConversationIdRef v = Some id ->
  exists v1 v2,
    step (Settles r (ConversationMessagesSettled None) clock) v = Some v1
    /\ step (Settles (nextRequest v) (ChatHistorySettled (Some conversationsData))
               clock) v1 = Some v2
    /\ error (store v1) = None
    /\ error (store v2) = None
    /\ messages (store v2) = messages (store v)
    /\ selectedConversationId (store v2) = selectedConversationId (store v)
    /\ conversations (store v2) = conversationsData
    /\ newConversationIdRef v2 = None
    /\ currentJobProgress (store v2) = inactiveProgress.
Proof.
  intros Hr Hanchor. eexists _, _.
  split.
  { cbn [step]. rewrite Hr.
    cbn [resumeWith selectConversation_settled resume dispatch settled
         newConversationIdRef].
    rewrite decide_True by exact Hanchor. reflexivity. }
  split.
  { cbn [step fetchHistory await dispatch pending set_newConversationIdRef
         settled nextRequest].
    rewrite lookup_insert_eq. reflexivity. }
  repeat split.
Qed.

Lemma terminal_fetch_failure_is_silent_witness :
  exists v1 v2,
    step (Settles 4 (ConversationMessagesSettled None) noon)
      (after draftLoading) = Some v1
    /\ step (Settles 5 (ChatHistorySettled (Some [conversation 42 "revenue 2023"]))
               noon) v1 = Some v2
    /\ error (store v2) = None
    /\ messages (store v2) = [createUserMessage "revenue 2023" noon].
Proof.
  destruct (terminal_fetch_failure_is_silent 42 [conversation 42 "revenue 2023"]
              noon 4 (after draftLoading)
              ltac:(by_computation) ltac:(by_computation))
    as (v1 & v2 & Hstep1 & Hstep2 & _ & Herror & Hmessages & _).
  exists v1, v2. split; [exact Hstep1|]. split; [exact Hstep2|].
  split; [exact Herror|]. rewrite Hmessages. by_computation.
Defined.

(** ** The job id *)

Lemma clearPolling_store w : store (clearPolling w) = store w.
Proof. unfold clearPolling. by destruct (pollingIntervalRef w). Qed.

Lemma startPolling_store jobId selected w :
  store (startPolling jobId selected w) = store w.
Proof. unfold startPolling. simpl. apply clearPolling_store. Qed.

Lemma resume_currentJobId caller w :
  currentJobId (store (resume caller w)) = currentJobId (store w).
Proof. destruct caller; simpl; [done| |done]. by case_decide. Qed.

Lemma step_keeps_job e w w' :
  is_Some (currentJobId (store w)) ->
  step e w = Some w' ->
  is_Some (currentJobId (store w')).
Proof.
  intros H Hstep. destruct e; simpl in Hstep.
  - by injection Hstep as <-.
  - injection Hstep as <-. unfold selectConversation. destruct id; [done|].
    by rewrite resume_currentJobId.
  - injection Hstep as <-. unfold createNewConversation. simpl.
    by rewrite clearPolling_store.
  - by injection Hstep as <-.
  - by injection Hstep as <-.
  - by injection Hstep as <-.
  - destruct (timers w !! t); [|discriminate]. by injection Hstep as <-.
  - destruct (pending w !! r) as [k|]; [|discriminate].
    destruct k, s; simpl in Hstep; try discriminate; injection Hstep as <-.
    + unfold fetchHistory_settled. rewrite resume_currentJobId. by destruct result.
    + unfold selectConversation_settled. rewrite resume_currentJobId.
      by destruct result.
    + unfold deleteConversation_settled. destruct result; [|done]. by case_decide.
    + unfold sendMessage_settled. destruct result as [response|]; [|done].
      rewrite startPolling_store. simpl. eauto.
    + unfold pollTick_settled. destruct result as [statusResponse|].
      * destruct (isTerminal _); [|done].
        destruct (nullish _ _).
        -- unfold selectConversation. simpl. by rewrite clearPolling_store.
        -- simpl. by rewrite clearPolling_store.
      * simpl. by rewrite clearPolling_store.
Qed.

(** X17. The job id in the store is never cleared: once a submission has
    been answered, [currentJobId] holds a job id through every sequence of
    tasks, also after the job has reached a terminal status, after a
    transport failure and after [createNewConversation]. *)
Theorem currentJobId_is_never_cleared (es : list Event) (w w' : World) :
  is_Some (currentJobId (store w)) ->
  run es w = Some w' ->
  is_Some (currentJobId (store w')).
Proof.
  revert w. induction es as [|e es IH]; intros w H Hrun; simpl in Hrun.
  - by injection Hrun as <-.
  - destruct (step e w) as [v|] eqn:Hstep; [|discriminate].
    eapply IH; [|exact Hrun]. by eapply step_keeps_job.
Qed.

Lemma currentJobId_is_never_cleared_witness :
  is_Some (currentJobId (store (after newDraftWhilePollingStarts))).
Proof.
  apply (currentJobId_is_never_cleared [CreateNewConversation]
           (after [SendMessage "revenue 2023" noon;
                   Settles 0 (answered "j1" 42) noon])
           (after newDraftWhilePollingStarts));
    [vm_compute; eauto|by_computation].
Defined.

(** ** A submission from start to end *)

Lemma run_cons e es w v : step e w = Some v -> run (e :: es) w = run es v.
Proof. intros H. simpl. by rewrite H. Qed.

(** The tasks of a job, each with the world it leaves. *)
Lemma submission_answered query selected response clock r v :
  timer_owned v ->
  pending v !! r = Some (AwaitSendQuery query selected) ->
  step (Settles r (SendQuerySettled (Some response)) clock) v
  = Some {| store := set_currentJobId (store v) (Some (job_id response));
            pollingIntervalRef := Some (nextTimer v);
            newConversationIdRef :=
              match selected with
              | None => Some (conversation_id response)
              | Some _ => newConversationIdRef v
              end;
            timers := {[ nextTimer v :=
                           {| poll_jobId := job_id response;
                              poll_selectedConversationId := selected |} ]};
            nextTimer := S (nextTimer v);
            pending := delete r (pending v);
            nextRequest := nextRequest v;
            sidebarRefs := sidebarRefs v |}.
Proof.
  intros Hown Hr. cbn [step]. rewrite Hr.
  cbn [resumeWith sendMessage_settled]. unfold startPolling.
  rewrite clearPolling_owned
    by (eapply poller_timer_owned; [|exact Hown]; by destruct selected).
  unfold setInterval, set_pollingIntervalRef. cbn [timers nextTimer].
  rewrite insert_empty. by destruct selected.
Qed.

Lemma terminal_tick_loads closure statusResponse id clock r v :
  timer_owned v ->
  pending v !! r = Some (AwaitJobStatus closure) ->
  isTerminal (status statusResponse) = true ->
  nullish (newConversationIdRef v) (poll_selectedConversationId closure) = Some id ->
  step (Settles r (JobStatusSettled (Some statusResponse)) clock) v
  = Some {| store :=
              set_error
                (set_isLoadingMessages
                   (set_selectedConversationId
                      (set_isSendingMessage
                         (set_currentJobProgress (store v)
                            (progressOf statusResponse)) false)
                      (Some id)) true) None;
            pollingIntervalRef := None;
            newConversationIdRef := newConversationIdRef v;
            timers := ∅;
            nextTimer := nextTimer v;
            pending := <[nextRequest v :=
                           AwaitConversationMessages id (PollAfterSelect id)]>
                         (delete r (pending v));
            nextRequest := S (nextRequest v);
            sidebarRefs := sidebarRefs v |}.
Proof.
  intros Hown Hr Hterm Hload. cbn [step]. rewrite Hr.
  cbn [resumeWith pollTick_settled]. rewrite Hterm.
  rewrite clearPolling_owned by (by eapply poller_timer_owned; [|exact Hown]).
  cbn [dispatch newConversationIdRef settled]. rewrite Hload. reflexivity.
Qed.

Lemma terminal_messages_arrive id messagesData clock r v :
  pending v !! r = Some (AwaitConversationMessages id (PollAfterSelect id)) ->
  step (Settles r (ConversationMessagesSettled (Some messagesData)) clock) v
  = Some
      (if decide (newConversationIdRef v = Some id) then
         {| store :=
              set_error
                (set_isLoadingHistory
                   (set_isLoadingMessages
                      (set_messages (store v)
                         (map (convertApiMessage clock) messagesData)) false)
                   true) None;
            pollingIntervalRef := pollingIntervalRef v;
            newConversationIdRef := None;
            timers := timers v;
            nextTimer := nextTimer v;
            pending := <[nextRequest v := AwaitChatHistory PollAfterHistory]>
                         (delete r (pending v));
            nextRequest := S (nextRequest v);
            sidebarRefs := sidebarRefs v |}
       else
         {| store :=
              set_currentJobProgress
                (set_isLoadingMessages
                   (set_messages (store v)
                      (map (convertApiMessage clock) messagesData)) false)
                inactiveProgress;
            pollingIntervalRef := pollingIntervalRef v;
            newConversationIdRef := newConversationIdRef v;
            timers := timers v;
            nextTimer := nextTimer v;
            pending := delete r (pending v);
            nextRequest := nextRequest v;
            sidebarRefs := sidebarRefs v |}).
Proof.
  intros Hr. cbn [step]. rewrite Hr.
  cbn [resumeWith selectConversation_settled resume dispatch settled
       newConversationIdRef].
  by destruct (decide (newConversationIdRef v = Some id)).
Qed.

Lemma terminal_history_arrives conversationsData clock r v :
  pending v !! r = Some (AwaitChatHistory PollAfterHistory) ->
  step (Settles r (ChatHistorySettled (Some conversationsData)) clock) v
  = Some {| store :=
              set_currentJobProgress
                (set_isLoadingHistory
                   (set_conversations (store v) conversationsData) false)
                inactiveProgress;
            pollingIntervalRef := pollingIntervalRef v;
            newConversationIdRef := newConversationIdRef v;
            timers := timers v;
            nextTimer := nextTimer v;
            pending := delete r (pending v);
            nextRequest := nextRequest v;
            sidebarRefs := sidebarRefs v |}.
Proof. intros Hr. cbn [step]. by rewrite Hr. Qed.

(** X18. A message sent from the draft state, followed without
    interleaving to the end of its job: the submission is answered, a tick
    reports a terminal status, the messages of the returned conversation
    arrive, then the refreshed history. At the end the returned conversation
    is selected, the message list is the server's list for it (the optimistic
    echo is gone), the conversation list is the refreshed one, the sending
    flag and the progress are reset, the anchor is cleared and no timer is
    live. *)
Theorem draft_submission_resolves (content : string) (response : QueryResponse)
    (statusResponse : StatusResponse) (messagesData : list ApiMessageType)
    (conversationsData : list Conversation) (clock : Clock) (w : World) :
  reachable w ->
  selectedConversationId (store w) = None ->
  isTerminal (status statusResponse) = true ->
  let r := nextRequest w in
  exists w',
    run [ SendMessage content clock;
          Settles r (SendQuerySettled (Some response)) clock;
          IntervalFires (nextTimer w);
          Settles (S r) (JobStatusSettled (Some statusResponse)) clock;
          Settles (S (S r)) (ConversationMessagesSettled (Some messagesData)) clock;
          Settles (S (S (S r))) (ChatHistorySettled (Some conversationsData)) clock ]
      w = Some w'
    /\ selectedConversationId (store w') = Some (conversation_id response)
    /\ messages (store w') = map (convertApiMessage clock) messagesData
    /\ conversations (store w') = conversationsData
    /\ isSendingMessage (store w') = false
    /\ currentJobProgress (store w') = inactiveProgress
    /\ currentJobId (store w') = Some (job_id response)
    /\ error (store w') = None
    /\ newConversationIdRef w' = None
    /\ pollingIntervalRef w' = None
    /\ timers w' = ∅.
Proof.
  intros Hreach Hdraft Hterm r. subst r. apply reachable_timer_owned in Hreach.
  set (w1 := sendMessage content clock w).
  assert (Hstep1 : step (SendMessage content clock) w = Some w1) by reflexivity.
  assert (Hown1 : timer_owned w1) by (by eapply step_timer_owned).
  assert (Hr1 : pending w1 !! nextRequest w = Some (AwaitSendQuery content None)).
  { subst w1. cbn [sendMessage pending await]. by rewrite lookup_insert_eq, Hdraft. }
  pose proof (submission_answered content None response clock _ w1 Hown1 Hr1)
    as Hstep2.
  set (w2 := Build_World _ _ _ _ _ _ _ _) in Hstep2.
  assert (Hown2 : timer_owned w2) by (by eapply step_timer_owned).
  assert (Hstep3 : step (IntervalFires (nextTimer w)) w2
                   = Some (await (AwaitJobStatus
                                    {| poll_jobId := job_id response;
                                       poll_selectedConversationId := None |}) w2)).
  { cbn [step]. subst w2. cbn [timers]. by rewrite lookup_singleton_eq. }
  set (w3 := await _ w2) in Hstep3.
  assert (Hown3 : timer_owned w3) by (by eapply step_timer_owned).
  assert (Hr3 : pending w3 !! S (nextRequest w)
                = Some (AwaitJobStatus
                          {| poll_jobId := job_id response;
                             poll_selectedConversationId := None |}))
    by apply lookup_insert_eq.
  pose proof (terminal_tick_loads _ statusResponse (conversation_id response)
                clock _ w3 Hown3 Hr3 Hterm eq_refl) as Hstep4.
  set (w4 := Build_World _ _ _ _ _ _ _ _) in Hstep4.
  assert (Hr4 : pending w4 !! S (S (nextRequest w))
                = Some (AwaitConversationMessages (conversation_id response)
                          (PollAfterSelect (conversation_id response))))
    by apply lookup_insert_eq.
  pose proof (terminal_messages_arrive _ messagesData clock _ w4 Hr4) as Hstep5.
  rewrite decide_True in Hstep5 by reflexivity.
  set (w5 := Build_World _ _ _ _ _ _ _ _) in Hstep5.
  assert (Hr5 : pending w5 !! S (S (S (nextRequest w)))
                = Some (AwaitChatHistory PollAfterHistory))
    by apply lookup_insert_eq.
  pose proof (terminal_history_arrives conversationsData clock _ w5 Hr5) as Hstep6.
  set (w6 := Build_World _ _ _ _ _ _ _ _) in Hstep6.
  exists w6. split.
  { rewrite (run_cons _ _ _ _ Hstep1), (run_cons _ _ _ _ Hstep2),
      (run_cons _ _ _ _ Hstep3), (run_cons _ _ _ _ Hstep4),
      (run_cons _ _ _ _ Hstep5), (run_cons _ _ _ _ Hstep6).
    reflexivity. }
  repeat split.
Qed.

Lemma draft_submission_resolves_witness :
  exists w',
    run [ SendMessage "revenue 2023" noon;
          Settles 0 (answered "j1" 42) noon;
          IntervalFires 0;
          Settles 1 (JobStatusSettled (Some (reported "failed" 40))) noon;
          Settles 2 (ConversationMessagesSettled
                       (Some [wireMessage 420 42 "revenue 2023" (Some "text")])) noon;
          Settles 3 (ChatHistorySettled (Some [conversation 42 "revenue 2023"]))
            noon ]
      initialWorld = Some w'
    /\ selectedConversationId (store w') = Some 42
    /\ conversations (store w') = [conversation 42 "revenue 2023"]
    /\ timers w' = ∅.
Proof.
  destruct (draft_submission_resolves "revenue 2023"
              {| job_id := "j1"; conversation_id := 42 |}
              (reported "failed" 40)
              [wireMessage 420 42 "revenue 2023" (Some "text")]
              [conversation 42 "revenue 2023"] noon initialWorld
              ltac:(exists []; by_computation) ltac:(by_computation)
              ltac:(by_computation))
    as (w' & Hrun & Hselected & _ & Hconversations & _ & _ & _ & _ & _ & _ & Htimers).
  exists w'. split; [exact Hrun|]. split; [exact Hselected|].
  split; [exact Hconversations|exact Htimers].
Defined.

(** X19. A message sent from a selected conversation, followed without
    interleaving to the end of its job. At the end that conversation is still
    selected and the message list is the server's list; the conversation id
    in the answer to the submission plays no part, the anchor stays [null],
    and the conversation list is not refreshed: no further request is
    issued. *)
Theorem conversation_submission_resolves (selected : Z) (content : string)
    (response : QueryResponse) (statusResponse : StatusResponse)
    (messagesData : list ApiMessageType) (clock : Clock) (w : World) :
  reachable w ->
  selectedConversationId (store w) = Some selected ->
  isTerminal (status statusResponse) = true ->
  let r := nextRequest w in
  exists w',
    run [ SendMessage content clock;
          Settles r (SendQuerySettled (Some response)) clock;
          IntervalFires (nextTimer w);
          Settles (S r) (JobStatusSettled (Some statusResponse)) clock;
          Settles (S (S r)) (ConversationMessagesSettled (Some messagesData)) clock ]
      w = Some w'
    /\ selectedConversationId (store w') = Some selected
    /\ messages (store w') = map (convertApiMessage clock) messagesData
    /\ conversations (store w') = conversations (store w)
    /\ isSendingMessage (store w') = false
    /\ currentJobProgress (store w') = inactiveProgress
    /\ currentJobId (store w') = Some (job_id response)
    /\ error (store w') = None
    /\ newConversationIdRef w' = None
    /\ timers w' = ∅
    /\ nextRequest w' = S (S (S r)).
Proof.
  intros Hreach Hselected Hterm r. subst r. apply reachable_timer_owned in Hreach.
  set (w1 := sendMessage content clock w).
  assert (Hstep1 : step (SendMessage content clock) w = Some w1) by reflexivity.
  assert (Hown1 : timer_owned w1) by (by eapply step_timer_owned).
  assert (Hr1 : pending w1 !! nextRequest w
                = Some (AwaitSendQuery content (Some selected))).
  { subst w1. cbn [sendMessage pending await].
    by rewrite lookup_insert_eq, Hselected. }
  pose proof (submission_answered content (Some selected) response clock _ w1
                Hown1 Hr1) as Hstep2.
  set (w2 := Build_World _ _ _ _ _ _ _ _) in Hstep2.
  assert (Hown2 : timer_owned w2) by (by eapply step_timer_owned).
  assert (Hstep3 : step (IntervalFires (nextTimer w)) w2
                   = Some (await (AwaitJobStatus
                                    {| poll_jobId := job_id response;
                                       poll_selectedConversationId := Some selected |})
                             w2)).
  { cbn [step]. subst w2. cbn [timers]. by rewrite lookup_singleton_eq. }
  set (w3 := await _ w2) in Hstep3.
  assert (Hown3 : timer_owned w3) by (by eapply step_timer_owned).
  assert (Hr3 : pending w3 !! S (nextRequest w)
                = Some (AwaitJobStatus
                          {| poll_jobId := job_id response;
                             poll_selectedConversationId := Some selected |}))
    by apply lookup_insert_eq.
  pose proof (terminal_tick_loads _ statusResponse selected clock _ w3
                Hown3 Hr3 Hterm eq_refl) as Hstep4.
  set (w4 := Build_World _ _ _ _ _ _ _ _) in Hstep4.
  assert (Hr4 : pending w4 !! S (S (nextRequest w))
                = Some (AwaitConversationMessages selected (PollAfterSelect selected)))
    by apply lookup_insert_eq.
  pose proof (terminal_messages_arrive _ messagesData clock _ w4 Hr4) as Hstep5.
  rewrite decide_False in Hstep5 by discriminate.
  set (w5 := Build_World _ _ _ _ _ _ _ _) in Hstep5.
  exists w5. split.
  { rewrite (run_cons _ _ _ _ Hstep1), (run_cons _ _ _ _ Hstep2),
      (run_cons _ _ _ _ Hstep3), (run_cons _ _ _ _ Hstep4),
      (run_cons _ _ _ _ Hstep5).
    reflexivity. }
  repeat split.
Qed.

Lemma conversation_submission_resolves_witness :
  exists w',
    run [ SendMessage "net margin" noon;
          Settles 2 (answered "j7" 99) noon;
          IntervalFires 0;
          Settles 3 (JobStatusSettled (Some (reported "completed" 100))) noon;
          Settles 4 (ConversationMessagesSettled
                       (Some [wireMessage 71 7 "net margin" (Some "text")])) noon ]
      (after selectedSeven) = Some w'
    /\ selectedConversationId (store w') = Some 7
    /\ conversations (store w') = conversations (store (after selectedSeven)).
Proof.
  destruct (conversation_submission_resolves 7 "net margin"
              {| job_id := "j7"; conversation_id := 99 |}
              (reported "completed" 100)
              [wireMessage 71 7 "net margin" (Some "text")] noon
              (after selectedSeven)
              ltac:(exists selectedSeven; by_computation) ltac:(by_computation)
              ltac:(by_computation))
    as (w' & Hrun & Hselected & _ & Hconversations & _).
  exists w'. split; [exact Hrun|]. split; [exact Hselected|exact Hconversations].
Defined.

(** ** The conversation list under [deleteConversation] *)

(** X20. [deleteConversation] followed by the success of its request: the
    conversation list that results holds exactly the conversations of other
    ids, in their order. When no conversation has the id the list is
    unchanged, and the request to the server is issued all the same. *)
Theorem deleteConversation_removes_by_id (id : Z) (clock : Clock) (w : World) :
  exists w',
    run [ DeleteConversation id;
          Settles (nextRequest w) (DeleteConversationSettled (Some ())) clock ] w
      = Some w'
    /\ (forall conv, conv ∈ conversations (store w')
          <-> conv ∈ conversations (store w) /\ conv_id conv ≠ id)
    /\ sublist (conversations (store w')) (conversations (store w))
    /\ ((forall conv, conv ∈ conversations (store w) -> conv_id conv ≠ id) ->
        conversations (store w') = conversations (store w))
    /\ is_Some (pending (deleteConversation id w) !! nextRequest w)
    /\ nextRequest w' = S (nextRequest w).
Proof.
  assert (Hlist : exists w',
    run [ DeleteConversation id;
          Settles (nextRequest w) (DeleteConversationSettled (Some ())) clock ] w
      = Some w'
    /\ conversations (store w') = without id (conversations (store w))
    /\ nextRequest w' = S (nextRequest w)).
  { cbn [run step deleteConversation await pending dispatch nextRequest].
    rewrite lookup_insert_eq.
    cbn [resumeWith deleteConversation_settled]. case_decide; eauto. }
  destruct Hlist as (w' & Hrun & Hlist & Hnext). exists w'.
  split; [exact Hrun|]. rewrite Hlist. clear Hrun Hlist. unfold without.
  split; [|split; [|split; [|split]]].
  - intros conv. rewrite !list_elem_of_In, filter_In, bool_decide_eq_true. tauto.
  - induction (conversations (store w)) as [|conv cs IH]; simpl; [constructor|].
    destruct (bool_decide _); [apply sublist_skip|apply sublist_cons]; exact IH.
  - induction (conversations (store w)) as [|conv cs IH]; intros Hne; [done|].
    simpl. rewrite bool_decide_eq_true_2 by (apply Hne; left).
    f_equal. apply IH. intros c Hc. apply Hne. by right.
  - cbn [deleteConversation await pending dispatch nextRequest].
    rewrite lookup_insert_eq. eauto.
  - exact Hnext.
Qed.

Lemma deleteConversation_removes_by_id_witness :
  exists w',
    run [ DeleteConversation 9;
          Settles 2 (DeleteConversationSettled (Some ())) noon ]
      (after selectedSeven) = Some w'
    /\ conversations (store w')
       = [conversation 7 "margins"; conversation 8 "cash flow"].
Proof.
  destruct (deleteConversation_removes_by_id 9 noon (after selectedSeven))
    as (w' & Hrun & _ & _ & Hsame & _).
  exists w'. split; [exact Hrun|]. rewrite Hsame; [by_computation|].
  replace (conversations (store (after selectedSeven)))
    with [conversation 7 "margins"; conversation 8 "cash flow"] by by_computation.
  intros conv Hconv. apply list_elem_of_In in Hconv.
  destruct Hconv as [<-|[<-|[]]]; discriminate.
Defined.

(** ** The loading flags *)

Lemma backs_mono lm lh lm' lh' x :
  (lm' = true -> lm = true) -> (lh' = true -> lh = true) ->
  backs lm lh x -> backs lm' lh' x.
Proof. intros Hm Hh (Hfresh & Hmsgs & Hhist). repeat split; auto. Qed.

Lemma backs_frame lm lh x y :
  pending y = pending x -> nextRequest y = nextRequest x ->
  backs lm lh x -> backs lm lh y.
Proof.
  unfold backs, requests_fresh, in_flight. intros -> ->. done.
Qed.

Lemma backs_dispatch a lm lh x : backs lm lh x -> backs lm lh (dispatch a x).
Proof. by apply backs_frame. Qed.

Lemma backs_anchor v lm lh x :
  backs lm lh x -> backs lm lh (set_newConversationIdRef v x).
Proof. by apply backs_frame. Qed.

Lemma backs_clearPolling lm lh x : backs lm lh x -> backs lm lh (clearPolling x).
Proof. unfold clearPolling. destruct (pollingIntervalRef x); [|done]. by apply backs_frame. Qed.

Lemma backs_startPolling jobId selected lm lh x :
  backs lm lh x -> backs lm lh (startPolling jobId selected x).
Proof.
  intros H. apply (backs_clearPolling _ _ _) in H. revert H.
  apply backs_frame; reflexivity.
Qed.

(** A request issued never takes the place of one in flight. *)
Lemma backs_await k lm lh x :
  backs lm lh x ->
  backs (lm || awaits_messages k) (lh || awaits_history k) (await k x).
Proof.
  intros (Hfresh & Hmsgs & Hhist).
  assert (Hold : forall kind, in_flight kind x -> in_flight kind (await k x)).
  { intros kind (r & k' & Hr & Hkind). exists r, k'. split; [|exact Hkind].
    simpl. rewrite lookup_insert_ne; [exact Hr|].
    specialize (Hfresh r k' Hr). lia. }
  assert (Hnew : forall kind, kind k = true -> in_flight kind (await k x)).
  { intros kind Hkind. exists (nextRequest x), k. split; [|exact Hkind].
    apply lookup_insert_eq. }
  split; [|split].
  - intros r k' Hr. simpl in Hr |- *.
    destruct (decide (r = nextRequest x)) as [->|Hne]; [lia|].
    rewrite lookup_insert_ne in Hr by done. specialize (Hfresh r k' Hr). lia.
  - intros [H|H]%orb_true_iff; auto.
  - intros [H|H]%orb_true_iff; auto.
Qed.

(** A request that settles takes no request of another kind with it. *)
Lemma backs_settled r k lm lh x :
  pending x !! r = Some k ->
  backs lm lh x ->
  backs (lm && negb (awaits_messages k)) (lh && negb (awaits_history k))
    (settled r x).
Proof.
  intros Hk (Hfresh & Hmsgs & Hhist).
  assert (Hold : forall kind, kind k = false -> in_flight kind x ->
                              in_flight kind (settled r x)).
  { intros kind Hkind (r' & k' & Hr' & Hkind'). exists r', k'.
    split; [|exact Hkind']. simpl. rewrite lookup_delete_ne; [exact Hr'|].
    intros <-. congruence. }
  split; [|split].
  - intros r' k' Hr'. simpl in Hr' |- *.
    apply lookup_delete_Some in Hr' as [_ Hr']. by apply (Hfresh r' k').
  - intros [H1 H2%negb_true_iff]%andb_true_iff. auto.
  - intros [H1 H2%negb_true_iff]%andb_true_iff. auto.
Qed.

Create HintDb backs.

#[local] Hint Resolve backs_dispatch backs_anchor backs_clearPolling
  backs_startPolling backs_await backs_settled : backs.

(** The flags of the world an operation leaves are backed once the world is
    shown to back some flags that they imply. *)
Ltac backed_by H :=
  unfold spinners_backed in H |- *;
  eapply backs_mono; [| |solve [eauto 10 using H with backs]];
  cbn; rewrite ?clearPolling_store;
  destruct (isLoadingMessages (store _)), (isLoadingHistory (store _)); done.

Lemma backed_fetchHistory caller x :
  awaits_history (AwaitChatHistory caller) = true ->
  spinners_backed x -> spinners_backed (fetchHistory caller x).
Proof. intros Hcaller H. unfold fetchHistory. destruct caller; [|done|]; backed_by H. Qed.

Lemma backed_resume caller x :
  spinners_backed x -> spinners_backed (resume caller x).
Proof.
  intros H. destruct caller; cbn [resume]; [done| |].
  - case_decide.
    + apply backed_fetchHistory; [done|]. backed_by H.
    + unfold resetProgress. backed_by H.
  - unfold resetProgress. backed_by H.
Qed.

Lemma backed_selectConversation id caller x :
  spinners_backed x -> spinners_backed (selectConversation id caller x).
Proof.
  intros H. unfold selectConversation. destruct id.
  - backed_by H.
  - apply backed_resume. backed_by H.
Qed.

Lemma step_backed e w w' :
  spinners_backed w -> step e w = Some w' -> spinners_backed w'.
Proof.
  intros H Hstep. destruct e; simpl in Hstep.
  - injection Hstep as <-. by apply backed_fetchHistory.
  - injection Hstep as <-. by apply backed_selectConversation.
  - injection Hstep as <-. unfold spinners_backed in H |- *.
    destruct (createNewConversation_inSidebar w)
      as (-> & _ & _ & _ & _ & Hpending & Hnext & _).
    revert H. by apply backs_frame.
  - injection Hstep as <-. unfold deleteConversation. backed_by H.
  - injection Hstep as <-. unfold sendMessage. backed_by H.
  - injection Hstep as <-. backed_by H.
  - destruct (timers w !! t); [|discriminate]. injection Hstep as <-. backed_by H.
  - destruct (pending w !! r) as [k|] eqn:Hk; [|discriminate].
    destruct k, s; simpl in Hstep; try discriminate; injection Hstep as <-.
    + unfold fetchHistory_settled. apply backed_resume.
      destruct result; backed_by H.
    + unfold selectConversation_settled. apply backed_resume.
      destruct result; backed_by H.
    + unfold deleteConversation_settled. destruct result; [case_decide|];
        backed_by H.
    + unfold sendMessage_settled. destruct result; [destruct selected|];
        backed_by H.
    + unfold pollTick_settled. destruct result as [statusResponse|].
      * destruct (isTerminal _); [|backed_by H].
        destruct (nullish _ _).
        -- apply backed_selectConversation. backed_by H.
        -- unfold resetProgress. backed_by H.
      * unfold resetProgress. backed_by H.
Qed.

(** X21. In every world the hook can reach, a loading flag that is set has a
    request of its kind in flight whose settlement, success or failure,
    clears it: [isLoadingMessages] a [getConversationMessages] request,
    [isLoadingHistory] a [getChatHistory] request. Neither flag is left set
    with nothing to clear it. *)
Theorem loading_flags_have_requests (w : World) :
  reachable w ->
  (isLoadingMessages (store w) = true ->
     exists r id caller,
       pending w !! r = Some (AwaitConversationMessages id caller)
       /\ forall result clock,
            exists w', step (Settles r (ConversationMessagesSettled result) clock) w
                       = Some w'
                       /\ isLoadingMessages (store w') = false)
  /\ (isLoadingHistory (store w) = true ->
     exists r caller,
       pending w !! r = Some (AwaitChatHistory caller)
       /\ forall result clock,
            exists w', step (Settles r (ChatHistorySettled result) clock) w = Some w'
                       /\ isLoadingHistory (store w') = false).
Proof.
  intros [es Hrun].
  assert (H : spinners_backed w).
  { assert (H0 : spinners_backed initialWorld).
    { split; [|split]; [|done|done]. intros r k Hr. simpl in Hr. by rewrite lookup_empty in Hr. }
    revert H0 Hrun. generalize initialWorld.
    induction es as [|e es IH]; intros v Hv Hrun.
    - by injection Hrun as <-.
    - simpl in Hrun. destruct (step e v) as [v'|] eqn:Hstep; [|discriminate].
      eapply IH; [|exact Hrun]. by eapply step_backed. }
  destruct H as (_ & Hmsgs & Hhist). split.
  - intros Hflag. destruct (Hmsgs Hflag) as (r & k & Hr & Hkind).
    destruct k as [|id caller| | |]; try discriminate. exists r, id, caller.
    split; [exact Hr|]. intros result clock. eexists. split.
    + cbn [step]. rewrite Hr. reflexivity.
    + unfold selectConversation_settled. destruct caller; cbn [resume]; [done| |done].
      by case_decide.
  - intros Hflag. destruct (Hhist Hflag) as (r & k & Hr & Hkind).
    destruct k as [caller| | | |]; try discriminate. exists r, caller.
    split; [exact Hr|]. intros result clock. eexists. split.
    + cbn [step]. rewrite Hr. reflexivity.
    + unfold fetchHistory_settled. by destruct caller.
Qed.

Lemma loading_flags_have_requests_witness :
  isLoadingMessages (store (after [SelectConversation (Some 7)])) = true
  /\ exists r id caller,
       pending (after [SelectConversation (Some 7)]) !! r
       = Some (AwaitConversationMessages id caller).
Proof.
  destruct (loading_flags_have_requests (after [SelectConversation (Some 7)])
              ltac:(exists [SelectConversation (Some 7)]; by_computation))
    as [Hmessages _].
  destruct (Hmessages ltac:(by_computation)) as (r & id & caller & Hr & _).
  split; [by_computation|]. exists r, id, caller. exact Hr.
Defined.

(** ** The sending flag *)

Lemma carried_mono b b' x : (b' = true -> b = true) -> carried b x -> carried b' x.
Proof. intros Hb (Hfresh & Hside & H). repeat split; auto. Qed.

Lemma carried_frame b x y :
  pending y = pending x -> nextRequest y = nextRequest x ->
  timers y = timers x -> sidebarRefs y = sidebarRefs x ->
  carried b x -> carried b y.
Proof.
  unfold carried, requests_fresh, in_flight. intros -> -> -> ->. done.
Qed.

Lemma carried_dispatch a b x : carried b x -> carried b (dispatch a x).
Proof. by apply carried_frame. Qed.

Lemma carried_anchor v b x :
  carried b x -> carried b (set_newConversationIdRef v x).
Proof. by apply carried_frame. Qed.

Lemma carried_await k b x :
  carried b x -> carried (b || is_query k) (await k x).
Proof.
  intros (Hfresh & Hside & H). split; [|split; [exact Hside|]].
  - intros r k' Hr. simpl in Hr |- *.
    destruct (decide (r = nextRequest x)) as [->|Hne]; [lia|].
    rewrite lookup_insert_ne in Hr by done. specialize (Hfresh r k' Hr). lia.
  - intros [Hb|Hk]%orb_true_iff.
    + destruct (H Hb) as [(r & k' & Hr & Hq)|Htimers]; [left|by right].
      exists r, k'. split; [|exact Hq]. simpl.
      rewrite lookup_insert_ne; [exact Hr|]. specialize (Hfresh r k' Hr). lia.
    + left. exists (nextRequest x), k. split; [apply lookup_insert_eq|exact Hk].
Qed.

Lemma carried_settled r k b x :
  pending x !! r = Some k ->
  carried b x -> carried (b && negb (is_query k)) (settled r x).
Proof.
  intros Hk (Hfresh & Hside & H). split; [|split; [exact Hside|]].
  - intros r' k' Hr'. simpl in Hr' |- *.
    apply lookup_delete_Some in Hr' as [_ Hr']. by apply (Hfresh r' k').
  - intros [Hb Hq%negb_true_iff]%andb_true_iff.
    destruct (H Hb) as [(r' & k' & Hr' & Hq')|Htimers]; [left|by right].
    exists r', k'. split; [|exact Hq']. simpl.
    rewrite lookup_delete_ne; [exact Hr'|]. intros <-. congruence.
Qed.

(** [clearPolling] may leave no timer; it carries the flag only when the
    flag is down, and each of its callers either lowers the flag or sets a
    new timer next. *)
Lemma carried_clearPolling b x : carried b x -> carried false (clearPolling x).
Proof.
  intros (Hfresh & Hside & _). split; [|split; [|done]].
  - destruct (clearPolling_frame x) as (_ & _ & Hp & Hn & _).
    unfold requests_fresh. by rewrite Hp, Hn.
  - by rewrite clearPolling_sidebarRefs.
Qed.

Lemma carried_startPolling jobId selected b x :
  carried b x -> carried true (startPolling jobId selected x).
Proof.
  intros H. apply carried_clearPolling in H as (Hfresh & Hside & _).
  split; [exact Hfresh|]. split; [exact Hside|]. intros _. right.
  unfold startPolling, setInterval. cbn [timers set_pollingIntervalRef].
  intros Hempty.
  assert (Hlookup : (∅ : gmap nat PollClosure) !! nextTimer (clearPolling x)
                    = Some {| poll_jobId := jobId;
                              poll_selectedConversationId := selected |}).
  { rewrite <- Hempty. apply lookup_insert_eq. }
  by rewrite lookup_empty in Hlookup.
Qed.

(** [Sidebar]'s [createNewConversation] cancels nothing. *)
Lemma carried_createNewConversation b x :
  carried b x -> carried b (inSidebar createNewConversation x).
Proof.
  intros H. pose proof H as (_ & Hside & _).
  destruct (createNewConversation_inSidebar x)
    as (_ & _ & _ & Htimers & _ & Hpending & Hnext & Hnone).
  rewrite Hside in Htimers. destruct H as (Hfresh & _ & H).
  unfold carried, requests_fresh, in_flight.
  rewrite Hpending, Hnext, Htimers. done.
Qed.

Create HintDb carried.

#[local] Hint Resolve carried_dispatch carried_anchor carried_await
  carried_settled carried_clearPolling carried_startPolling
  carried_createNewConversation : carried.

(** The flag of the world an operation leaves is carried once the world is
    shown to carry a flag that it implies. *)
Ltac carried_by H :=
  unfold sending_carried in H |- *;
  eapply carried_mono; [|solve [eauto 10 using H with carried]];
  cbn; rewrite ?clearPolling_store;
  destruct (isSendingMessage (store _)); done.

Lemma sending_carried_resume caller x :
  sending_carried x -> sending_carried (resume caller x).
Proof.
  intros H. destruct caller; cbn [resume]; [done| |].
  - unfold fetchHistory, resetProgress. case_decide; carried_by H.
  - unfold resetProgress. carried_by H.
Qed.

Lemma step_sending_carried e w w' :
  sending_carried w -> step e w = Some w' -> sending_carried w'.
Proof.
  intros H Hstep. destruct e; simpl in Hstep.
  - injection Hstep as <-. unfold fetchHistory. carried_by H.
  - injection Hstep as <-. unfold selectConversation. destruct id.
    + carried_by H.
    + apply sending_carried_resume. carried_by H.
  - injection Hstep as <-. unfold sending_carried in H |- *.
    destruct (createNewConversation_inSidebar w) as (-> & _).
    by apply carried_createNewConversation.
  - injection Hstep as <-. unfold deleteConversation. carried_by H.
  - injection Hstep as <-. unfold sendMessage. carried_by H.
  - injection Hstep as <-. carried_by H.
  - destruct (timers w !! t); [|discriminate]. injection Hstep as <-. carried_by H.
  - destruct (pending w !! r) as [k|] eqn:Hk; [|discriminate].
    destruct k, s; simpl in Hstep; try discriminate; injection Hstep as <-.
    + unfold fetchHistory_settled. apply sending_carried_resume.
      destruct result; carried_by H.
    + unfold selectConversation_settled. apply sending_carried_resume.
      destruct result; carried_by H.
    + unfold deleteConversation_settled. destruct result; [case_decide|];
        carried_by H.
    + unfold sendMessage_settled. destruct result; [destruct selected|];
        carried_by H.
    + unfold pollTick_settled. destruct result as [statusResponse|].
      * destruct (isTerminal _); [|carried_by H].
        destruct (nullish _ _).
        -- unfold selectConversation. carried_by H.
        -- unfold resetProgress. carried_by H.
      * unfold resetProgress. carried_by H.
Qed.

(** X16. The sending flag, which disables the input of the chat view, is
    never left set with nothing to clear it: in every world the application
    can reach in which [isSendingMessage] is set, a submission is awaiting
    its answer or the poll timer is live and held by [pollingIntervalRef].
    ([Sidebar]'s [createNewConversation] leaves the flag as it is, and the
    timer too.) *)
Theorem sending_flag_is_carried (w : World) :
  reachable w ->
  isSendingMessage (store w) = true ->
  (exists r query selected, pending w !! r = Some (AwaitSendQuery query selected))
  \/ (exists t closure,
        timers w !! t = Some closure /\ pollingIntervalRef w = Some t).
Proof.
  intros Hreach Hflag.
  assert (H : sending_carried w).
  { destruct Hreach as [es Hrun].
    assert (H0 : sending_carried initialWorld).
    { split; [|split]; [|done|done]. intros r k Hr. simpl in Hr.
      by rewrite lookup_empty in Hr. }
    revert H0 Hrun. generalize initialWorld.
    induction es as [|e es IH]; intros v Hv Hrun.
    - by injection Hrun as <-.
    - simpl in Hrun. destruct (step e v) as [v'|] eqn:Hstep; [|discriminate].
      eapply IH; [|exact Hrun]. by eapply step_sending_carried. }
  destruct H as (_ & _ & H). destruct (H Hflag) as [(r & k & Hr & Hq)|Htimers].
  - left. destruct k; try discriminate. eauto.
  - right. apply map_choose in Htimers as (t & closure & Ht).
    exists t, closure. split; [exact Ht|].
    apply (reachable_timer_owned w Hreach). eauto.
Qed.

Lemma sending_flag_is_carried_witness :
  isSendingMessage (store (after newDraftWhilePollingStarts)) = true
  /\ exists t closure,
       timers (after newDraftWhilePollingStarts) !! t = Some closure
       /\ pollingIntervalRef (after newDraftWhilePollingStarts) = Some t.
Proof.
  split; [by_computation|].
  destruct (sending_flag_is_carried (after newDraftWhilePollingStarts)
              ltac:(exists newDraftWhilePollingStarts; by_computation)
              ltac:(by_computation))
    as [(r & query & selected & Hr)|Htimer]; [|exact Htimer].
  exfalso. revert Hr.
  replace (pending (after newDraftWhilePollingStarts))
    with (∅ : gmap nat Continuation) by by_computation.
  by rewrite lookup_empty.
Defined.
